(** * The Search widget of vectara-docusaurus-search

    A shallow embedding of the [Search] component
    (src/components/search/SearchInput.tsx, the second module of that file):
    the sequence-gated query controller [sendSearchQuery], the keyboard
    handler [onKeyDown], [onChange], [resetResults] and
    [closeModalAndResetResults], together with the namespace identifier
    [searchId] and the capped history the component writes to.

    Modelling conventions.
    - JavaScript numbers that the component only compares, increments or
      decrements by one ([searchCount.current], [selectedResultIndex],
      [searchResults.length]) are integers of [Z]; [historySize] counts
      entries and is a [nat].
    - A handler runs atomically on the state of the latest render: React
      re-renders between two events, so the [searchResults] and
      [selectedResultIndex] captured by [useCallback] are the current ones.
    - An [async] function is split at its [await]: the part before it runs
      inside the calling handler and leaves a continuation in [inflight];
      the part after it runs when the awaited promise settles.
    - Everything the component does to the outside (a fetch, [window.open],
      [preventDefault], an error nobody handles) is appended to [trace].
    - [selectedResultRef] is a handle on a DOM node that only the scroll
      effect reads; it is not part of the model. *)

From stdpp Require Import base option list strings gmap sorting.
From Stdlib Require Import ZArith Lia Ascii.

Local Open Scope Z_scope.

(** ** Data *)

(** Modelled from the spec: the type [DeserializedSearchResult] of ./types,
    which is not among the sources.  The spec gives a result as
    {url, snippet:{pre,text,post}, score?}; the component reads [url] and the
    three parts of [snippet], so the optional floating-point score is left
    out. *)
Record Snippet := mkSnippet {
  pre : string;
  text : string;
  post : string
}.

Record DeserializedSearchResult := mkResult {
  url : string;
  snippet : Snippet
}.

(** The props of [Search]; [apiUrl] and [historySize] are optional. *)
Record Props := mkProps {
  customerId : string;
  apiKey : string;
  corpusId : string;
  apiUrl : option string;
  historySize : option nat
}.

(** A value thrown, or the reason of a rejected promise. *)
Inductive JsError :=
| TypeError (msg : string)
| FetchFailure (reason : string).

(** How a promise settles. *)
Inductive Settled (A : Type) :=
| Fulfilled (value : A)
| Rejected (reason : JsError).
Arguments Fulfilled {A} value.
Arguments Rejected {A} reason.

(** What the component does to its environment. *)
Inductive Effect :=
| PreventDefault
| WindowOpen (target : string)
| Fetch (query : string)
| UncaughtException (e : JsError)
| UnhandledRejection (e : JsError).

(** The component's state ([useState] cells and [useRef] cells), the
    persisted history store, and the bookkeeping of the event loop. *)
Record World := mkWorld {
  searchResults : list DeserializedSearchResult;
  selectedResultIndex : option Z;
  isOpen : bool;
  queryRef : string;
  searchCount : Z;
  history : gmap string (list string);
  timers : list string;
  inflight : list (Z * string);
  trace : list Effect
}.

Definition setSearchResults' (v : list DeserializedSearchResult) (w : World) : World :=
  mkWorld v (selectedResultIndex w) (isOpen w) (queryRef w) (searchCount w)
          (history w) (timers w) (inflight w) (trace w).

Definition setSelectedResultIndex' (v : option Z) (w : World) : World :=
  mkWorld (searchResults w) v (isOpen w) (queryRef w) (searchCount w)
          (history w) (timers w) (inflight w) (trace w).

Definition setIsOpen' (v : bool) (w : World) : World :=
  mkWorld (searchResults w) (selectedResultIndex w) v (queryRef w) (searchCount w)
          (history w) (timers w) (inflight w) (trace w).

Definition setQueryRef' (v : string) (w : World) : World :=
  mkWorld (searchResults w) (selectedResultIndex w) (isOpen w) v (searchCount w)
          (history w) (timers w) (inflight w) (trace w).

Definition setSearchCount' (v : Z) (w : World) : World :=
  mkWorld (searchResults w) (selectedResultIndex w) (isOpen w) (queryRef w) v
          (history w) (timers w) (inflight w) (trace w).

Definition setHistory' (v : gmap string (list string)) (w : World) : World :=
  mkWorld (searchResults w) (selectedResultIndex w) (isOpen w) (queryRef w)
          (searchCount w) v (timers w) (inflight w) (trace w).

Definition setTimers' (v : list string) (w : World) : World :=
  mkWorld (searchResults w) (selectedResultIndex w) (isOpen w) (queryRef w)
          (searchCount w) (history w) v (inflight w) (trace w).

Definition setInflight' (v : list (Z * string)) (w : World) : World :=
  mkWorld (searchResults w) (selectedResultIndex w) (isOpen w) (queryRef w)
          (searchCount w) (history w) (timers w) v (trace w).

Definition emit' (e : Effect) (w : World) : World :=
  mkWorld (searchResults w) (selectedResultIndex w) (isOpen w) (queryRef w)
          (searchCount w) (history w) (timers w) (inflight w) (trace w ++ [e]).

(** ** Handlers as state transformers that may throw *)

Inductive Completion (A : Type) :=
| Normal (a : A)
| Throw (e : JsError).
Arguments Normal {A} a.
Arguments Throw {A} e.

Definition M (A : Type) : Type := World → Completion A * World.

#[global] Instance M_ret : MRet M := λ A a w, (Normal a, w).

#[global] Instance M_bind : MBind M := λ A B f m w,
  match m w with
  | (Normal a, w') => f a w'
  | (Throw e, w') => (Throw e, w')
  end.

Definition throw {A : Type} (e : JsError) : M A := λ w, (Throw e, w).
Definition gets {A : Type} (f : World → A) : M A := λ w, (Normal (f w), w).
Definition modify (f : World → World) : M unit := λ w, (Normal tt, f w).

Definition setSearchResults (v : list DeserializedSearchResult) : M unit :=
  modify (setSearchResults' v).
Definition setSelectedResultIndex (f : option Z → option Z) : M unit :=
  modify (λ w, setSelectedResultIndex' (f (selectedResultIndex w)) w).
Definition setIsOpen (v : bool) : M unit := modify (setIsOpen' v).
Definition emit (e : Effect) : M unit := modify (emit' e).

(** [arr[i]] on a JavaScript array: [undefined] out of range. *)
Definition array_get {A : Type} (arr : list A) (i : Z) : option A :=
  if i <? 0 then None else arr !! Z.to_nat i.

(** [arr.length]. *)
Definition array_length {A : Type} (arr : list A) : Z := Z.of_nat (length arr).

(** ** The history store *)

(** Modelled from the spec: [useSearchHistory] of ./useSearchHistory, which is
    not among the sources.  The spec gives it as a per-namespace capped list
    of past query strings in a key-value store keyed by the namespace
    identifier, with [getPreviousSearches(): string[]] and
    [addPreviousSearch(query): void], where inserting beyond capacity evicts
    the oldest entry.  The list is kept oldest first; the timestamp of an
    entry, which neither operation returns, is left out. *)
Definition getPreviousSearches (searchId : string)
    (store : gmap string (list string)) : list string :=
  default [] (store !! searchId).

Definition addPreviousSearch (searchId : string) (historySize : nat)
    (query : string) (store : gmap string (list string)) :
    gmap string (list string) :=
  let entries := getPreviousSearches searchId store ++ [query] in
  <[searchId := drop (length entries - historySize) entries]> store.

(** A sequence of [addPreviousSearch] calls on one namespace, in order. *)
Definition addPreviousSearches (searchId : string) (historySize : nat)
    (queries : list string) (store : gmap string (list string)) :
    gmap string (list string) :=
  foldl (λ st query, addPreviousSearch searchId historySize query st) store queries.

(** Whether a string contains the separator of [searchId_key]. *)
Fixpoint has_dash (s : string) : bool :=
  match s with
  | EmptyString => false
  | String c s' => Ascii.eqb c "-"%char || has_dash s'
  end.

(** ** The component *)

Section Widget.

(** [getUuid] of the package uuid-by-string: some function from strings to
    strings. *)
Variable getUuid : string → string.

Variable props : Props.

(** [historySize = 10] in the parameter list of [Search]: the default
    applies when the prop is left out. *)
Definition Search_historySize : nat := default 10%nat (historySize props).

(** [getUuid(`${customerId}-${corpusId}-${apiKey}`)]. *)
Definition searchId_key : string :=
  customerId props +:+ "-" +:+ corpusId props +:+ "-" +:+ apiKey props.

Definition searchId : string := getUuid searchId_key.

(** The state of a freshly mounted component, over a persisted store. *)
Definition init (store : gmap string (list string)) : World :=
  mkWorld [] None false "" 0 store [] [] [].

(** [fetchSearchResults(query)] up to the point where the caller awaits:
    the request leaves, and the caller's continuation, identified by the
    sequence number it captured, waits for the promise to settle. *)
Definition fetchSearchResults (query : string) (searchId : Z) : M unit :=
  emit (Fetch query);;
  modify (λ w, setInflight' (inflight w ++ [(searchId, query)]) w).

(** [sendSearchQuery], lines 151-160: the part before the [await]. *)
Definition sendSearchQuery (query : string) : M unit :=
  if (String.length query =? 0)%nat then mret tt
  else
    modify (λ w, setSearchCount' (searchCount w + 1) w);;
    searchId' ← gets searchCount;
    modify (λ w, setHistory'
                   (addPreviousSearch searchId Search_historySize query (history w)) w);;
    fetchSearchResults query searchId'.

(** [sendSearchQuery], lines 160-167: the part after the [await].  A
    rejected promise makes the [await] throw, and the function has no
    handler around it. *)
Definition sendSearchQuery_resume (searchId' : Z)
    (r : Settled (list DeserializedSearchResult)) : M unit :=
  match r with
  | Rejected e => throw e
  | Fulfilled results =>
      current ← gets searchCount;
      if searchId' =? current then
        setSearchResults results;;
        setSelectedResultIndex (λ _, None)
      else mret tt
  end.

Definition resetResults : M unit :=
  setSearchResults [];;
  setSelectedResultIndex (λ _, None).

(** [debounce(f, 500)] of lodash.debounce is rebuilt by every render, so a
    call scheduled through an earlier instance is not cancelled by a later
    one.  The model keeps every scheduled call and lets the event loop run
    any of them, or none: every schedule of the real timers is one of
    these. *)
Definition debouncedSendSearchQuery (query : string) : M unit :=
  modify (λ w, setTimers' (timers w ++ [query]) w).

Definition onChange (value : string) : M unit :=
  modify (setQueryRef' value);;
  (if (String.length value =? 0)%nat then resetResults else mret tt);;
  debouncedSendSearchQuery value.

(** The two functional updaters of [onKeyDown]. *)
Definition arrowDown_next (results : list DeserializedSearchResult)
    (prevValue : option Z) : option Z :=
  match prevValue with
  | None => Some 0
  | Some p => if p =? array_length results - 1 then Some 0 else Some (p + 1)
  end.

Definition arrowUp_next (results : list DeserializedSearchResult)
    (prevValue : option Z) : option Z :=
  match prevValue with
  | None => Some (array_length results - 1)
  | Some p => if p =? 0 then Some (array_length results - 1) else Some (p - 1)
  end.

(** [onKeyDown], lines 186-221. *)
Definition onKeyDown (key : string) : M unit :=
  results ← gets searchResults;
  selected ← gets selectedResultIndex;
  (if String.eqb key "Enter" then
     emit PreventDefault;;
     match selected with
     | Some i =>
         match array_get results i with
         | Some r => emit (WindowOpen (url r))
         | None => throw (TypeError "cannot read properties of undefined")
         end
     | None =>
         q ← gets queryRef;
         sendSearchQuery q
     end
   else mret tt);;
  if array_length results =? 0 then mret tt
  else
    (if String.eqb key "ArrowDown" then
       setSelectedResultIndex (arrowDown_next results)
     else mret tt);;
    (if String.eqb key "ArrowUp" then
       setSelectedResultIndex (arrowUp_next results)
     else mret tt).

Definition closeModalAndResetResults : M unit :=
  setIsOpen false;;
  resetResults.

(** ** The event loop *)

Inductive Event :=
| Change (value : string)
| KeyDown (key : string)
| TimerFires (n : nat)
| FetchSettles (n : nat) (r : Settled (list DeserializedSearchResult))
| Close
| Open.

(** An event handler that throws: the exception reaches the host. *)
Definition run_handler (m : M unit) (w : World) : World :=
  match m w with
  | (Normal _, w') => w'
  | (Throw e, w') => emit' (UncaughtException e) w'
  end.

(** The continuation of an [async] function whose promise nobody awaits
    or catches: a throw rejects that promise, unhandled. *)
Definition run_async (m : M unit) (w : World) : World :=
  match m w with
  | (Normal _, w') => w'
  | (Throw e, w') => emit' (UnhandledRejection e) w'
  end.

Definition step (ev : Event) (w : World) : World :=
  match ev with
  | Change value => run_handler (onChange value) w
  | KeyDown key => run_handler (onKeyDown key) w
  | TimerFires n =>
      match timers w !! n with
      | Some query =>
          run_handler (sendSearchQuery query) (setTimers' (delete n (timers w)) w)
      | None => w
      end
  | FetchSettles n r =>
      match inflight w !! n with
      | Some (searchId', _) =>
          run_async (sendSearchQuery_resume searchId' r)
                    (setInflight' (delete n (inflight w)) w)
      | None => w
      end
  | Close => run_handler closeModalAndResetResults w
  | Open => run_handler (setIsOpen true) w
  end.

Definition run (evs : list Event) (w : World) : World :=
  foldl (λ w ev, step ev w) w evs.

Inductive reachable : World → Prop :=
| reachable_init store : reachable (init store)
| reachable_step ev w : reachable w → reachable (step ev w).

(** [selectedResultIndex] is [null] or an index into [searchResults]. *)
Definition valid_selection (w : World) : Prop :=
  match selectedResultIndex w with
  | None => True
  | Some i => 0 ≤ i < array_length (searchResults w)
  end.

End Widget.

(** ** Sample data *)

(** A configuration and two results to run the component on. *)
Definition example_props : Props := mkProps "1234" "zqt_key" "7" None None.
Definition result_a : DeserializedSearchResult :=
  mkResult "/docs/a" (mkSnippet "see " "a" " here").
Definition result_b : DeserializedSearchResult :=
  mkResult "/docs/b" (mkSnippet "see " "b" " there").

(** "docs" is typed and submitted, one result arrives and is selected with
    ArrowDown. *)
Definition session_selected : World :=
  run id example_props
    [Change "docs"; KeyDown "Enter"; FetchSettles 0 (Fulfilled [result_a]);
     KeyDown "ArrowDown"] (init ∅).

(** ** Rendering and the global shortcut *)

(** One element of [resultsList], lines 242-254: the wrapper [div] with its
    React key and whether it holds [selectedResultRef], and the two props
    handed to [SearchResult]. *)
Record ResultRow := mkRow {
  row_key : string;
  row_ref : bool;
  row_searchResult : DeserializedSearchResult;
  row_isSelected : bool
}.

(** [selectedResultIndex === index]: [null] equals no index. *)
Definition is_index (selected : option Z) (index : nat) : bool :=
  match selected with
  | Some i => i =? Z.of_nat index
  | None => false
  end.

(** [resultsList], lines 234-255: [null] for an empty array, and otherwise
    [searchResults.map((searchResult, index) => ...)]. *)
Definition resultsList (w : World) : option (list ResultRow) :=
  if array_length (searchResults w) =? 0 then None
  else
    Some (imap (λ index searchResult,
                  mkRow (pre (snippet searchResult) +:+ text (snippet searchResult)
                           +:+ post (snippet searchResult))
                        (is_index (selectedResultIndex w) index)
                        searchResult
                        (is_index (selectedResultIndex w) index))
               (searchResults w)).

(** [openSearchOnKeyStroke], lines 267-271, the [keyup] listener on the
    document: [e.key] and [e.ctrlKey]. *)
Definition openSearchOnKeyStroke (key : string) (ctrlKey : bool) : M unit :=
  if String.eqb key "k" && ctrlKey then setIsOpen true else mret tt.

(** The queries of the requests in a trace, in the order they left. *)
Definition fetches (t : list Effect) : list string :=
  omap (λ e, match e with Fetch q => Some q | _ => None end) t.

(** The bookkeeping of the sequence numbers: the counter is the number of
    requests issued so far, the requests in flight carry increasing
    sequence numbers, and the request with sequence number [id] is the
    [id]-th one issued. *)
Definition bookkeeping (w : World) : Prop :=
  Z.of_nat (length (fetches (trace w))) = searchCount w ∧
  StronglySorted Z.lt ((inflight w).*1) ∧
  ∀ id q, (id, q) ∈ inflight w →
          0 < id ≤ searchCount w ∧ q ≠ "" ∧
          fetches (trace w) !! Z.to_nat (id - 1) = Some q.

(** Every query the component holds for later, or has requested, satisfies
    [P]. *)
Definition queries_from (P : string → Prop) (w : World) : Prop :=
  (queryRef w = "" ∨ P (queryRef w)) ∧
  (∀ q, q ∈ timers w → P q) ∧
  (∀ q, Fetch q ∈ trace w → q ≠ "" ∧ P q).

(** * Properties *)

(** Unfolds a handler down to the record operations. *)
Ltac unfold_handlers :=
  unfold step, run_handler, run_async, onKeyDown, onChange, closeModalAndResetResults,
    resetResults, debouncedSendSearchQuery, sendSearchQuery_resume, fetchSearchResults,
    setSearchResults, setSelectedResultIndex, setIsOpen, emit, modify, gets, throw,
    mbind, mret, M_bind, M_ret in *.

(** Unfolds the record updates, so that projections compute. *)
Ltac unfold_setters :=
  unfold setSearchResults', setSelectedResultIndex', setIsOpen', setQueryRef',
    setSearchCount', setHistory', setTimers', setInflight', emit' in *;
  cbn in *.

(** Cases on every conditional of the goal. *)
Ltac case_ifs :=
  repeat (match goal with
          | |- context [if ?b then _ else _] => destruct b eqn:?
          end; cbn).

(** ** The query controller *)

Section Controller.

Variable getUuid : string → string.
Variable props : Props.

Lemma length_zero_empty (s : string) : (String.length s =? 0)%nat = true ↔ s = "".
Proof. destruct s; cbn; split; intros H; done. Qed.

Lemma sendSearchQuery_nonempty query w :
  query ≠ "" →
  sendSearchQuery getUuid props query w =
    (Normal tt,
     mkWorld (searchResults w) (selectedResultIndex w) (isOpen w) (queryRef w)
             (searchCount w + 1)
             (addPreviousSearch (searchId getUuid props) (Search_historySize props)
                                query (history w))
             (timers w)
             (inflight w ++ [(searchCount w + 1, query)])
             (trace w ++ [Fetch query])).
Proof.
  intros Hq. unfold sendSearchQuery.
  destruct (String.length query =? 0)%nat eqn:E.
  - apply length_zero_empty in E. done.
  - reflexivity.
Qed.

(** What the part of [sendSearchQuery] before the [await] leaves alone, for
    any query. *)
Lemma sendSearchQuery_frame query w :
  ∃ w', sendSearchQuery getUuid props query w = (Normal tt, w') ∧
        searchResults w' = searchResults w ∧
        selectedResultIndex w' = selectedResultIndex w ∧
        isOpen w' = isOpen w ∧
        queryRef w' = queryRef w ∧
        timers w' = timers w ∧
        searchCount w ≤ searchCount w'.
Proof.
  destruct (decide (query = "")) as [->|Hq].
  - exists w. repeat split; done || lia.
  - eexists. split; [by apply sendSearchQuery_nonempty|]. cbn.
    repeat split; done || lia.
Qed.

(** The sequence counter never decreases. *)
Lemma step_searchCount_mono ev w :
  searchCount w ≤ searchCount (step getUuid props ev w).
Proof.
  destruct ev as [value|key|n|n r| |]; cbn.
  - unfold_handlers. case_ifs; unfold_setters; lia.
  - unfold_handlers.
    destruct (String.eqb key "Enter").
    + destruct (selectedResultIndex w) as [i|]; cbn.
      * destruct (array_get (searchResults w) i); cbn; case_ifs; unfold_setters; lia.
      * destruct (sendSearchQuery_frame (queryRef w) (emit' PreventDefault w))
          as (w' & -> & ? & ? & ? & ? & ? & Hc).
        case_ifs; unfold_setters; lia.
    + cbn. case_ifs; unfold_setters; lia.
  - destruct (timers w !! n) as [q|]; [|lia].
    unfold run_handler.
    destruct (sendSearchQuery_frame q (setTimers' (delete n (timers w)) w))
      as (w' & -> & ? & ? & ? & ? & ? & Hc). unfold_setters. lia.
  - destruct (inflight w !! n) as [[id q]|]; [|lia].
    unfold_handlers. destruct r as [results|e]; cbn; case_ifs; unfold_setters; lia.
  - unfold_handlers. unfold_setters. lia.
  - unfold_handlers. unfold_setters. lia.
Qed.

Lemma run_searchCount_mono evs w :
  searchCount w ≤ searchCount (run getUuid props evs w).
Proof.
  revert w. induction evs as [|ev evs IH]; intros w; cbn; [lia|].
  etrans; [apply (step_searchCount_mono ev)|apply IH].
Qed.

(** A response whose sequence number is below the counter is dropped. *)
Lemma stale_resume_dropped id r w :
  id < searchCount w →
  let w' := run_async (sendSearchQuery_resume id r) w in
  searchResults w' = searchResults w ∧
  selectedResultIndex w' = selectedResultIndex w.
Proof.
  intros Hid. unfold_handlers. destruct r as [results|e]; cbn; [|done].
  destruct (id =? searchCount w) eqn:E; [lia|done].
Qed.

(** The response at position [length l1] of the in-flight list settles. *)
Lemma step_FetchSettles l1 l2 id q r w :
  inflight w = l1 ++ (id, q) :: l2 →
  step getUuid props (FetchSettles (length l1) r) w =
    run_async (sendSearchQuery_resume id r) (setInflight' (l1 ++ l2) w).
Proof.
  intros Hin. cbn. rewrite Hin, list_lookup_middle by done.
  by rewrite delete_middle.
Qed.

(** A response that carries the current sequence number is applied. *)
Lemma fresh_resume_applied id results w :
  id = searchCount w →
  run_async (sendSearchQuery_resume id (Fulfilled results)) w =
    setSelectedResultIndex' None (setSearchResults' results w).
Proof.
  intros ->. unfold_handlers. by rewrite Z.eqb_refl.
Qed.

(** C1. Q1 and then Q2, both non-empty, are submitted before Q1's fetch
    settles.  Both requests are then in flight, with sequence numbers
    [searchCount + 1] and [searchCount + 2].  Whatever happens next ([evs]),
    Q1's response, fulfilled or rejected, changes neither the results nor
    the selection when it arrives; and in both orders of arrival the
    results shown once Q2's response has arrived are Q2's, with no
    selection. *)
Theorem sequence_gating w Q1 Q2 r1 results2 evs :
  Q1 ≠ "" → Q2 ≠ "" →
  let id1 := searchCount w + 1 in
  let id2 := searchCount w + 2 in
  let n := length (inflight w) in
  let w2 := run_handler (sendSearchQuery getUuid props Q2)
              (run_handler (sendSearchQuery getUuid props Q1) w) in
  inflight w2 = inflight w ++ [(id1, Q1); (id2, Q2)] ∧
  searchResults w2 = searchResults w ∧
  selectedResultIndex w2 = selectedResultIndex w ∧
  (let w' := run getUuid props evs w2 in
   let w'' := run_async (sendSearchQuery_resume id1 r1) w' in
   searchResults w'' = searchResults w' ∧
   selectedResultIndex w'' = selectedResultIndex w') ∧
  (let w' := step getUuid props (FetchSettles n r1) w2 in
   let w'' := step getUuid props (FetchSettles n (Fulfilled results2)) w' in
   searchResults w' = searchResults w ∧
   selectedResultIndex w' = selectedResultIndex w ∧
   searchResults w'' = results2 ∧
   selectedResultIndex w'' = None) ∧
  (let w' := step getUuid props (FetchSettles (S n) (Fulfilled results2)) w2 in
   let w'' := step getUuid props (FetchSettles n r1) w' in
   searchResults w' = results2 ∧
   selectedResultIndex w' = None ∧
   searchResults w'' = results2 ∧
   selectedResultIndex w'' = None).
Proof.
  intros H1 H2 id1 id2 n w2.
  assert (Hw2 : w2 =
    mkWorld (searchResults w) (selectedResultIndex w) (isOpen w) (queryRef w)
      id2
      (addPreviousSearch (searchId getUuid props) (Search_historySize props) Q2
         (addPreviousSearch (searchId getUuid props) (Search_historySize props) Q1
            (history w)))
      (timers w)
      (inflight w ++ [(id1, Q1); (id2, Q2)])
      (trace w ++ [Fetch Q1; Fetch Q2])).
  { subst w2. unfold run_handler.
    rewrite (sendSearchQuery_nonempty Q1) by done.
    rewrite (sendSearchQuery_nonempty Q2) by done. cbn.
    rewrite <- !(assoc_L (++)). cbn. subst id1 id2.
    by replace (searchCount w + 1 + 1) with (searchCount w + 2) by lia. }
  clearbody w2. subst w2.
  split_and!; try done.
  - (* Q1's response after any further events *)
    cbn zeta. apply stale_resume_dropped.
    eapply Z.lt_le_trans; [|apply run_searchCount_mono]. cbn. lia.
  - (* Q1's response first, then Q2's *)
    cbn zeta.
    rewrite (step_FetchSettles (inflight w) [(id2, Q2)] id1 Q1) by done.
    set (wa := run_async _ _).
    assert (Ha : searchResults wa = searchResults w ∧
                 selectedResultIndex wa = selectedResultIndex w ∧
                 searchCount wa = id2 ∧
                 inflight wa = inflight w ++ [(id2, Q2)]).
    { subst wa. unfold_handlers. destruct r1 as [results1|e]; cbn; [|done].
      destruct (id1 =? id2) eqn:E; [lia|done]. }
    destruct Ha as (Hr & Hs & Hc & Hi). clearbody wa.
    rewrite (step_FetchSettles (inflight w) [] id2 Q2 _ wa) by done.
    rewrite fresh_resume_applied by (cbn; done).
    done.
  - (* Q2's response first, then Q1's *)
    cbn zeta.
    replace (S n) with (length (inflight w ++ [(id1, Q1)]))
      by (rewrite length_app; cbn; lia).
    rewrite (step_FetchSettles (inflight w ++ [(id1, Q1)]) [] id2 Q2).
    2:{ cbn. by rewrite <- (assoc_L (++)). }
    rewrite fresh_resume_applied by done.
    rewrite (step_FetchSettles (inflight w) [] id1 Q1).
    2:{ cbn. by rewrite app_nil_r. }
    unfold_handlers. destruct r1 as [results1|e]; cbn; [|done].
    destruct (id1 =? id2) eqn:E; [lia|done].
Qed.

(** C3, as amended. When the fetch of a submitted query rejects, the
    component state is left as it was (the results and the selection in
    particular, so the results shown before stay), and only the settled
    request leaves the in-flight list; the rejection is not caught:
    [sendSearchQuery] has no handler around its [await] and no caller
    handles its promise, so the reason surfaces as an unhandled rejection. *)
Theorem rejected_fetch_keeps_state w n id q e :
  inflight w !! n = Some (id, q) →
  let w' := step getUuid props (FetchSettles n (Rejected e)) w in
  w' = emit' (UnhandledRejection e) (setInflight' (delete n (inflight w)) w) ∧
  searchResults w' = searchResults w ∧
  selectedResultIndex w' = selectedResultIndex w ∧
  trace w' = trace w ++ [UnhandledRejection e].
Proof.
  intros Hn. cbn. rewrite Hn. done.
Qed.

(** C2. Submitting the empty string returns at once and leaves the whole
    world as it was: no request in the trace, no history entry, the
    sequence counter, the results and the selection untouched. *)
Theorem sendSearchQuery_empty_noop :
  ∀ w, sendSearchQuery getUuid props "" w = (Normal tt, w).
Proof. intros w. reflexivity. Qed.

End Controller.

(** C1 at work: "a" and then "ab" are typed and sent on a fresh component;
    in either order of arrival the results that end up on screen are those
    of "ab". *)
Lemma sequence_gating_witness :
  let w2 := run id example_props
              [Change "a"; TimerFires 0; Change "ab"; TimerFires 0] (init ∅) in
  inflight w2 = [(1, "a"); (2, "ab")] ∧
  searchResults
    (run id example_props
       [FetchSettles 0 (Fulfilled [result_a]); FetchSettles 0 (Fulfilled [result_b])]
       w2) = [result_b] ∧
  searchResults
    (run id example_props
       [FetchSettles 1 (Fulfilled [result_b]); FetchSettles 0 (Fulfilled [result_a])]
       w2) = [result_b].
Proof.
  pose proof (sequence_gating id example_props
                (setQueryRef' "ab" (init ∅)) "a" "ab"
                (Fulfilled [result_a]) [result_b] []
                ltac:(done) ltac:(done)) as H.
  cbn zeta in H. destruct H as (Hin & _ & _ & _ & Ha & Hb).
  split_and!.
  - reflexivity.
  - apply Ha.
  - apply Hb.
Defined.

(** C3 as stated fails: Enter submits "docs", the fetch rejects, and the
    reason leaves the component as an unhandled rejection. *)
Lemma rejected_fetch_escapes :
  let w := run id example_props [Change "docs"; KeyDown "Enter"] (init ∅) in
  inflight w = [(1, "docs")] ∧
  trace w = [PreventDefault; Fetch "docs"] ∧
  trace (step id example_props (FetchSettles 0 (Rejected (FetchFailure "offline"))) w)
    = [PreventDefault; Fetch "docs"; UnhandledRejection (FetchFailure "offline")].
Proof. done. Qed.

(** C3 as amended, on a fresh component: the debounced "docs" is in flight
    when its fetch rejects. *)
Lemma rejected_fetch_keeps_state_witness :
  let w := run id example_props [Change "docs"; TimerFires 0] (init ∅) in
  let w' := step id example_props (FetchSettles 0 (Rejected (FetchFailure "offline"))) w in
  inflight w !! 0%nat = Some (1, "docs") ∧
  searchResults w' = searchResults w ∧
  selectedResultIndex w' = selectedResultIndex w ∧
  trace w' = trace w ++ [UnhandledRejection (FetchFailure "offline")].
Proof.
  split; [reflexivity|].
  refine (proj2 (rejected_fetch_keeps_state id example_props
            (run id example_props [Change "docs"; TimerFires 0] (init ∅))
            0%nat 1 "docs" (FetchFailure "offline") _)).
  reflexivity.
Defined.

(** ** The keyboard handler and the selection *)

Section Keyboard.

Variable getUuid : string → string.
Variable props : Props.

Lemma array_length_zero {A : Type} (arr : list A) :
  (array_length arr =? 0) = true ↔ arr = [].
Proof.
  unfold array_length. destruct arr; cbn; split; intros H; try done; lia.
Qed.

Lemma valid_selection_frame w w' :
  searchResults w' = searchResults w →
  selectedResultIndex w' = selectedResultIndex w →
  valid_selection w → valid_selection w'.
Proof. unfold valid_selection. by intros -> ->. Qed.

Lemma arrowDown_next_valid results prev :
  results ≠ [] →
  match prev with None => True | Some i => 0 ≤ i < array_length results end →
  ∃ j, arrowDown_next results prev = Some j ∧ 0 ≤ j < array_length results.
Proof.
  intros Hne Hv. assert (0 < array_length results).
  { unfold array_length. destruct results; [done|cbn; lia]. }
  destruct prev as [i|]; cbn.
  - destruct (i =? array_length results - 1) eqn:E; eexists; split; done || lia.
  - eexists; split; done || lia.
Qed.

Lemma arrowUp_next_valid results prev :
  results ≠ [] →
  match prev with None => True | Some i => 0 ≤ i < array_length results end →
  ∃ j, arrowUp_next results prev = Some j ∧ 0 ≤ j < array_length results.
Proof.
  intros Hne Hv. assert (0 < array_length results).
  { unfold array_length. destruct results; [done|cbn; lia]. }
  destruct prev as [i|]; cbn.
  - destruct (i =? 0) eqn:E; eexists; split; done || lia.
  - eexists; split; done || lia.
Qed.

(** A key other than the three the handler knows does nothing. *)
Lemma onKeyDown_other key w :
  key ≠ "Enter" → key ≠ "ArrowDown" → key ≠ "ArrowUp" →
  step getUuid props (KeyDown key) w = w.
Proof.
  intros H1 H2 H3. apply String.eqb_neq in H1, H2, H3.
  unfold_handlers. rewrite H1, H2, H3. cbn. by case_ifs; destruct w.
Qed.

Lemma onKeyDown_ArrowDown w :
  step getUuid props (KeyDown "ArrowDown") w =
    if array_length (searchResults w) =? 0 then w
    else setSelectedResultIndex'
           (arrowDown_next (searchResults w) (selectedResultIndex w)) w.
Proof. unfold_handlers. cbn. by case_ifs; destruct w. Qed.

Lemma onKeyDown_ArrowUp w :
  step getUuid props (KeyDown "ArrowUp") w =
    if array_length (searchResults w) =? 0 then w
    else setSelectedResultIndex'
           (arrowUp_next (searchResults w) (selectedResultIndex w)) w.
Proof. unfold_handlers. cbn. by case_ifs; destruct w. Qed.

Lemma onKeyDown_Enter w :
  step getUuid props (KeyDown "Enter") w =
    match selectedResultIndex w with
    | Some i =>
        match array_get (searchResults w) i with
        | Some r => emit' (WindowOpen (url r)) (emit' PreventDefault w)
        | None =>
            emit' (UncaughtException (TypeError "cannot read properties of undefined"))
                  (emit' PreventDefault w)
        end
    | None =>
        run_handler (sendSearchQuery getUuid props (queryRef w)) (emit' PreventDefault w)
    end.
Proof.
  unfold_handlers. cbn.
  destruct (selectedResultIndex w) as [i|]; cbn.
  - destruct (array_get (searchResults w) i); cbn; [|done]. by case_ifs.
  - destruct (sendSearchQuery_frame getUuid props (queryRef w) (emit' PreventDefault w))
      as (w' & -> & ?). by case_ifs.
Qed.

Lemma reachable_run evs w :
  reachable getUuid props w → reachable getUuid props (run getUuid props evs w).
Proof.
  revert w. induction evs as [|ev evs IH]; intros w Hw; [done|].
  cbn. apply IH. by constructor.
Qed.

Lemma step_valid_selection ev w :
  valid_selection w → valid_selection (step getUuid props ev w).
Proof.
  intros Hv. destruct ev as [value|key|n|n r| |].
  - unfold_handlers. cbn. destruct (String.length value =? 0)%nat; cbn; [done|].
    revert Hv. by apply valid_selection_frame.
  - destruct (decide (key = "Enter")) as [->|HE].
    { rewrite onKeyDown_Enter. destruct (selectedResultIndex w) as [i|] eqn:Hs.
      - destruct (array_get (searchResults w) i);
          (revert Hv; by apply valid_selection_frame).
      - unfold run_handler.
        destruct (sendSearchQuery_frame getUuid props (queryRef w) (emit' PreventDefault w))
          as (w' & -> & Hr & Hs' & _).
        revert Hv. apply valid_selection_frame; [by rewrite Hr|by rewrite Hs', Hs]. }
    destruct (decide (key = "ArrowDown")) as [->|HD].
    { rewrite onKeyDown_ArrowDown.
      destruct (array_length (searchResults w) =? 0) eqn:E; [done|].
      destruct (arrowDown_next_valid (searchResults w) (selectedResultIndex w))
        as (j & Hj & Hb); [|done|].
      - intros Hnil. apply array_length_zero in Hnil. congruence.
      - unfold valid_selection. cbn. by rewrite Hj. }
    destruct (decide (key = "ArrowUp")) as [->|HU].
    { rewrite onKeyDown_ArrowUp.
      destruct (array_length (searchResults w) =? 0) eqn:E; [done|].
      destruct (arrowUp_next_valid (searchResults w) (selectedResultIndex w))
        as (j & Hj & Hb); [|done|].
      - intros Hnil. apply array_length_zero in Hnil. congruence.
      - unfold valid_selection. cbn. by rewrite Hj. }
    by rewrite onKeyDown_other.
  - cbn. destruct (timers w !! n) as [q|]; [|done]. unfold run_handler.
    destruct (sendSearchQuery_frame getUuid props q (setTimers' (delete n (timers w)) w))
      as (w' & -> & Hr & Hs & _).
    revert Hv. by apply valid_selection_frame.
  - cbn. destruct (inflight w !! n) as [[id q]|]; [|done].
    unfold_handlers. destruct r as [results|e]; cbn.
    + destruct (id =? searchCount w); cbn; [done|].
      revert Hv. by apply valid_selection_frame.
    + revert Hv. by apply valid_selection_frame.
  - done.
  - revert Hv. by apply valid_selection_frame.
Qed.

(** A step either keeps the results array or clears the selection. *)
Lemma step_results_or_reset ev w :
  searchResults (step getUuid props ev w) = searchResults w ∨
  selectedResultIndex (step getUuid props ev w) = None.
Proof.
  destruct ev as [value|key|n|n r| |].
  - unfold_handlers. cbn. destruct (String.length value =? 0)%nat; cbn; auto.
  - left. destruct (decide (key = "Enter")) as [->|HE].
    { rewrite onKeyDown_Enter. destruct (selectedResultIndex w) as [i|].
      - by destruct (array_get (searchResults w) i).
      - unfold run_handler.
        destruct (sendSearchQuery_frame getUuid props (queryRef w) (emit' PreventDefault w))
          as (w' & -> & Hr & _). by rewrite Hr. }
    destruct (decide (key = "ArrowDown")) as [->|HD].
    { rewrite onKeyDown_ArrowDown. by case_ifs. }
    destruct (decide (key = "ArrowUp")) as [->|HU].
    { rewrite onKeyDown_ArrowUp. by case_ifs. }
    by rewrite onKeyDown_other.
  - left. cbn. destruct (timers w !! n) as [q|]; [|done]. unfold run_handler.
    destruct (sendSearchQuery_frame getUuid props q (setTimers' (delete n (timers w)) w))
      as (w' & -> & Hr & _). by rewrite Hr.
  - cbn. destruct (inflight w !! n) as [[id q]|]; [|by left].
    unfold_handlers. destruct r as [results|e]; cbn; [|by left].
    destruct (id =? searchCount w); cbn; auto.
  - by right.
  - by left.
Qed.

(** C6. In every state the component can reach, [selectedResultIndex] is
    [null] or an index into the current [searchResults]; a step that
    changes the results array leaves the selection [null], and so do the two
    operations that call [setSearchResults]: [resetResults] and the
    continuation of [sendSearchQuery] on a response that carries the current
    sequence number. *)
Theorem selection_invariant w :
  reachable getUuid props w →
  valid_selection w ∧
  (∀ ev, searchResults (step getUuid props ev w) ≠ searchResults w →
         selectedResultIndex (step getUuid props ev w) = None) ∧
  (searchResults (run_handler resetResults w) = [] ∧
   selectedResultIndex (run_handler resetResults w) = None) ∧
  (∀ results,
     let w' := run_async (sendSearchQuery_resume (searchCount w) (Fulfilled results)) w in
     searchResults w' = results ∧ selectedResultIndex w' = None).
Proof.
  intros Hreach. split_and!.
  - induction Hreach as [store|ev w Hreach IH]; [done|].
    by apply step_valid_selection.
  - intros ev Hne. by destruct (step_results_or_reset ev w).
  - done.
  - done.
  - intros results. by rewrite fresh_resume_applied.
Qed.

(** C8. With a non-empty results list of length N and a selection that is
    [null] or an index into it, ArrowDown selects 0 from [null], i+1 from
    i < N-1 and 0 otherwise; ArrowUp selects N-1 from [null], i-1 from i > 0
    and N-1 otherwise.  Nothing else changes. *)
Theorem arrow_keys_cycle w :
  searchResults w ≠ [] → valid_selection w →
  let N := array_length (searchResults w) in
  step getUuid props (KeyDown "ArrowDown") w =
    setSelectedResultIndex'
      (Some match selectedResultIndex w with
            | None => 0
            | Some i => if i <? N - 1 then i + 1 else 0
            end) w ∧
  step getUuid props (KeyDown "ArrowUp") w =
    setSelectedResultIndex'
      (Some match selectedResultIndex w with
            | None => N - 1
            | Some i => if 0 <? i then i - 1 else N - 1
            end) w.
Proof.
  intros Hne Hv N. rewrite onKeyDown_ArrowDown, onKeyDown_ArrowUp.
  destruct (array_length (searchResults w) =? 0) eqn:E.
  { apply array_length_zero in E. done. }
  unfold valid_selection in Hv. fold N in Hv.
  unfold arrowDown_next, arrowUp_next. fold N.
  destruct (selectedResultIndex w) as [i|]; [|done].
  split; do 2 f_equal.
  - destruct (i =? N - 1) eqn:E1, (i <? N - 1) eqn:E2; done || lia.
  - destruct (i =? 0) eqn:E1, (0 <? i) eqn:E2; done || lia.
Qed.

(** C4, as amended. With an empty results list every key other than Enter,
    ArrowDown and ArrowUp included, leaves the world as it is.  Enter with
    no selection calls [preventDefault] and submits the stored query text:
    nothing more happens when that text is empty, and otherwise the
    sequence counter goes up, the text enters the history and a request
    leaves. *)
Theorem keys_on_empty_results w key :
  searchResults w = [] →
  (key ≠ "Enter" → step getUuid props (KeyDown key) w = w) ∧
  (selectedResultIndex w = None →
   step getUuid props (KeyDown "Enter") w =
     run_handler (sendSearchQuery getUuid props (queryRef w)) (emit' PreventDefault w)) ∧
  (selectedResultIndex w = None → queryRef w = "" →
   step getUuid props (KeyDown "Enter") w = emit' PreventDefault w) ∧
  (selectedResultIndex w = None → queryRef w ≠ "" →
   let w' := step getUuid props (KeyDown "Enter") w in
   searchCount w' = searchCount w + 1 ∧
   history w' = addPreviousSearch (searchId getUuid props) (Search_historySize props)
                  (queryRef w) (history w) ∧
   inflight w' = inflight w ++ [(searchCount w + 1, queryRef w)] ∧
   trace w' = trace w ++ [PreventDefault; Fetch (queryRef w)] ∧
   searchResults w' = [] ∧ selectedResultIndex w' = None).
Proof.
  intros Hnil. split_and!.
  - intros HE.
    destruct (decide (key = "ArrowDown")) as [->|HD].
    { rewrite onKeyDown_ArrowDown. by rewrite Hnil. }
    destruct (decide (key = "ArrowUp")) as [->|HU].
    { rewrite onKeyDown_ArrowUp. by rewrite Hnil. }
    by apply onKeyDown_other.
  - intros Hs. by rewrite onKeyDown_Enter, Hs.
  - intros Hs Hq. by rewrite onKeyDown_Enter, Hs, Hq.
  - intros Hs Hq. cbn zeta. rewrite onKeyDown_Enter, Hs. unfold run_handler.
    rewrite sendSearchQuery_nonempty by done. cbn.
    rewrite <- (assoc_L (++)). done.
Qed.

(** C7, as amended. [closeModalAndResetResults] closes the modal, empties
    the results and clears the selection, and touches nothing else: the
    stored query text, the sequence counter, the scheduled debounced calls
    and the requests in flight stay as they were. *)
Theorem closeModalAndResetResults_effect w :
  let w' := step getUuid props Close w in
  w' = setSelectedResultIndex' None (setSearchResults' [] (setIsOpen' false w)) ∧
  isOpen w' = false ∧
  searchResults w' = [] ∧
  selectedResultIndex w' = None ∧
  queryRef w' = queryRef w ∧
  searchCount w' = searchCount w ∧
  timers w' = timers w ∧
  inflight w' = inflight w.
Proof. done. Qed.

End Keyboard.

(** C6 at work: a query is typed, sent and answered with two results, and
    ArrowUp selects the last of them. *)
Lemma selection_invariant_witness :
  let w := run id example_props
             [Change "a"; TimerFires 0; FetchSettles 0 (Fulfilled [result_a; result_b]);
              KeyDown "ArrowUp"] (init ∅) in
  reachable id example_props w ∧
  selectedResultIndex w = Some 1 ∧
  valid_selection w.
Proof.
  cbn zeta.
  assert (Hreach : reachable id example_props
            (run id example_props
               [Change "a"; TimerFires 0; FetchSettles 0 (Fulfilled [result_a; result_b]);
                KeyDown "ArrowUp"] (init ∅))).
  { apply reachable_run. constructor. }
  split_and!.
  - exact Hreach.
  - reflexivity.
  - exact (proj1 (selection_invariant id example_props _ Hreach)).
Defined.

(** C8 at work: three results with the last one selected; ArrowDown wraps
    to 0 and ArrowUp moves to 1. *)
Lemma arrow_keys_cycle_witness :
  let w := setSelectedResultIndex' (Some 2)
             (setSearchResults' [result_a; result_b; result_a] (init ∅)) in
  searchResults w ≠ [] ∧
  valid_selection w ∧
  selectedResultIndex (step id example_props (KeyDown "ArrowDown") w) = Some 0 ∧
  selectedResultIndex (step id example_props (KeyDown "ArrowUp") w) = Some 1.
Proof.
  cbn zeta.
  assert (Hne : [result_a; result_b; result_a] ≠ []) by done.
  assert (Hv : valid_selection
                 (setSelectedResultIndex' (Some 2)
                    (setSearchResults' [result_a; result_b; result_a] (init ∅)))).
  { unfold valid_selection, array_length. cbn. lia. }
  destruct (arrow_keys_cycle id example_props
              (setSelectedResultIndex' (Some 2)
                 (setSearchResults' [result_a; result_b; result_a] (init ∅)))
              Hne Hv) as [Hd Hu].
  split_and!.
  - exact Hne.
  - exact Hv.
  - rewrite Hd. reflexivity.
  - rewrite Hu. reflexivity.
Defined.

(** C4 as stated fails: with no results yet and "docs" typed, Enter is not
    a no-op: it submits the query. *)
Lemma enter_on_empty_results_submits :
  let w := step id example_props (Change "docs") (init ∅) in
  let w' := step id example_props (KeyDown "Enter") w in
  searchResults w = [] ∧
  searchCount w = 0 ∧ searchCount w' = 1 ∧
  trace w = [] ∧ trace w' = [PreventDefault; Fetch "docs"] ∧
  inflight w' = [(1, "docs")].
Proof. done. Qed.

(** C4 as amended, on the same state: ArrowDown does nothing, Enter
    submits "docs". *)
Lemma keys_on_empty_results_witness :
  let w := step id example_props (Change "docs") (init ∅) in
  searchResults w = [] ∧
  step id example_props (KeyDown "ArrowDown") w = w ∧
  trace (step id example_props (KeyDown "Enter") w) = [PreventDefault; Fetch "docs"].
Proof.
  cbn zeta.
  destruct (keys_on_empty_results id example_props
              (step id example_props (Change "docs") (init ∅)) "ArrowDown" eq_refl)
    as (Hother & _ & _ & Henter).
  split_and!.
  - reflexivity.
  - apply Hother. discriminate.
  - apply Henter; [reflexivity|discriminate].
Defined.

(** C7 as stated fails: "docs" is typed, the modal is closed and reopened,
    and Enter submits the text typed before the close. *)
Lemma close_keeps_query_text :
  let w := step id example_props (Change "docs") (init ∅) in
  queryRef (step id example_props Close w) = "docs" ∧
  trace (run id example_props [Close; Open; KeyDown "Enter"] w)
    = [PreventDefault; Fetch "docs"].
Proof. done. Qed.

(** ** The history store and the namespace *)

Section History.

Variable getUuid : string → string.

Lemma getPreviousSearches_add ns cap q (store : gmap string (list string)) :
  getPreviousSearches ns (addPreviousSearch ns cap q store) =
    drop (length (getPreviousSearches ns store ++ [q]) - cap)
         (getPreviousSearches ns store ++ [q]).
Proof.
  unfold addPreviousSearch. unfold getPreviousSearches at 1.
  by rewrite lookup_insert_eq.
Qed.

(** An insertion is invisible from any other namespace. *)
Lemma getPreviousSearches_add_ne ns ns' cap q (store : gmap string (list string)) :
  ns ≠ ns' →
  getPreviousSearches ns' (addPreviousSearch ns cap q store) =
    getPreviousSearches ns' store.
Proof.
  intros Hne. unfold addPreviousSearch, getPreviousSearches.
  by rewrite lookup_insert_ne.
Qed.

(** Trimming the trimmed list after one more entry is trimming the whole. *)
Lemma drop_capped_snoc (cap : nat) (l : list string) (q : string) :
  let h := drop (length l - cap) l in
  drop (length (h ++ [q]) - cap) (h ++ [q]) =
    drop (length (l ++ [q]) - cap) (l ++ [q]).
Proof.
  cbn zeta. rewrite !length_app, length_drop. cbn.
  destruct (decide (length l ≤ cap)%nat) as [Hle|Hgt].
  - replace (length l - cap)%nat with 0%nat by lia. cbn.
    by replace (length l - 0)%nat with (length l) by lia.
  - destruct (decide (cap = 0)%nat) as [->|Hpos].
    + rewrite !drop_ge; [done|rewrite length_app..]; cbn; [lia|].
      rewrite length_drop. lia.
    + rewrite drop_app_le by (rewrite length_drop; lia).
      rewrite drop_drop.
      rewrite (drop_app_le l [q]) by lia.
      do 2 f_equal. lia.
Qed.

Lemma addPreviousSearches_cons ns cap q qs (store : gmap string (list string)) :
  addPreviousSearches ns cap (q :: qs) store =
    addPreviousSearches ns cap qs (addPreviousSearch ns cap q store).
Proof. reflexivity. Qed.

Lemma addPreviousSearches_view ns cap qs :
  ∀ (store : gmap string (list string)) (l : list string),
    getPreviousSearches ns store = drop (length l - cap) l →
    getPreviousSearches ns (addPreviousSearches ns cap qs store) =
      drop (length (l ++ qs) - cap) (l ++ qs).
Proof.
  induction qs as [|q qs IH]; intros store l Hview.
  - by rewrite app_nil_r.
  - rewrite addPreviousSearches_cons, (IH _ (l ++ [q])).
    + by rewrite <- (assoc_L (++)).
    + rewrite getPreviousSearches_add, Hview. apply drop_capped_snoc.
Qed.

(** C9. A sequence of [addPreviousSearch] calls on a namespace that starts
    empty leaves the last [historySize] of the added queries, in insertion
    order: at most [historySize] entries, the oldest evicted first.  The
    same holds after at least one call on a store that held anything
    before: the namespace then holds the last [historySize] entries of its
    old list followed by the added queries.  With [historySize] 2, adding
    "a", "b", "c" to an empty history leaves ["b"; "c"]. *)
Theorem history_capped ns cap q qs (store : gmap string (list string)) :
  let fresh := getPreviousSearches ns (addPreviousSearches ns cap qs ∅) in
  let h := getPreviousSearches ns (addPreviousSearches ns cap (q :: qs) store) in
  let all := getPreviousSearches ns store ++ q :: qs in
  fresh = drop (length qs - cap) qs ∧
  (length fresh ≤ cap)%nat ∧
  h = drop (length all - cap) all ∧
  (length h ≤ cap)%nat ∧
  getPreviousSearches ns (addPreviousSearches ns 2 ["a"; "b"; "c"] ∅) = ["b"; "c"].
Proof.
  cbn zeta.
  assert (Hfresh : ∀ qs', getPreviousSearches ns (addPreviousSearches ns cap qs' ∅) =
                          drop (length qs' - cap) qs').
  { intros qs'. apply (addPreviousSearches_view ns cap qs' ∅ []).
    unfold getPreviousSearches. by rewrite lookup_empty. }
  assert (Hh : getPreviousSearches ns (addPreviousSearches ns cap (q :: qs) store) =
               drop (length (getPreviousSearches ns store ++ q :: qs) - cap)
                    (getPreviousSearches ns store ++ q :: qs)).
  { rewrite addPreviousSearches_cons.
    rewrite (addPreviousSearches_view ns cap qs _
               (getPreviousSearches ns store ++ [q])).
    - by rewrite <- (assoc_L (++)).
    - apply getPreviousSearches_add. }
  split_and!.
  - apply Hfresh.
  - rewrite Hfresh, length_drop. lia.
  - exact Hh.
  - rewrite Hh, length_drop. lia.
  - rewrite !addPreviousSearches_cons. unfold addPreviousSearches. cbn [foldl].
    rewrite !getPreviousSearches_add.
    unfold getPreviousSearches at 3. rewrite lookup_empty. reflexivity.
Qed.

(** C5 fails on the code: the identifier is computed from the three
    strings joined with "-", so two different triples with the same joined
    string get the same identifier whatever [getUuid] is, and the second
    component reads the history the first one wrote. *)
Theorem searchId_collision :
  let p1 := mkProps "a-b" "key" "c" None None in
  let p2 := mkProps "a" "key" "b-c" None None in
  (customerId p1, corpusId p1, apiKey p1) ≠ (customerId p2, corpusId p2, apiKey p2) ∧
  searchId_key p1 = "a-b-c-key" ∧
  searchId_key p2 = "a-b-c-key" ∧
  searchId getUuid p1 = searchId getUuid p2 ∧
  getPreviousSearches (searchId getUuid p2)
    (history (run getUuid p1 [Change "docs"; KeyDown "Enter"] (init ∅))) = ["docs"].
Proof.
  cbn zeta. split_and!; try done.
  set (p1 := mkProps "a-b" "key" "c" None None).
  set (p2 := mkProps "a" "key" "b-c" None None).
  change (searchId getUuid p2) with (searchId getUuid p1).
  change (run getUuid p1 [Change "docs"; KeyDown "Enter"] (init ∅))
    with (step getUuid p1 (KeyDown "Enter") (step getUuid p1 (Change "docs") (init ∅))).
  rewrite onKeyDown_Enter.
  change (selectedResultIndex (step getUuid p1 (Change "docs") (init ∅)))
    with (@None Z).
  change (queryRef (step getUuid p1 (Change "docs") (init ∅))) with "docs".
  unfold run_handler. rewrite sendSearchQuery_nonempty by done.
  cbn [history]. rewrite getPreviousSearches_add.
  change (history (emit' PreventDefault (step getUuid p1 (Change "docs") (init ∅))))
    with (∅ : gmap string (list string)).
  unfold getPreviousSearches. rewrite lookup_empty. reflexivity.
Qed.

Lemma append_empty_l (s : string) : "" +:+ s = s.
Proof. reflexivity. Qed.

Lemma append_String (c : ascii) (s t : string) :
  String c s +:+ t = String c (s +:+ t).
Proof. reflexivity. Qed.

Lemma append_dash_inj s1 : ∀ s2 r1 r2,
  has_dash s1 = false → has_dash s2 = false →
  s1 +:+ "-" +:+ r1 = s2 +:+ "-" +:+ r2 →
  s1 = s2 ∧ r1 = r2.
Proof.
  induction s1 as [|c s1 IH]; intros [|c' s2] r1 r2 H1 H2 Heq; cbn in H1, H2;
    rewrite ?append_String, ?append_empty_l in Heq.
  - by injection Heq as ->.
  - injection Heq as <- _. by rewrite Ascii.eqb_refl in H2.
  - injection Heq as -> _. by rewrite Ascii.eqb_refl in H1.
  - injection Heq as -> Heq.
    apply orb_false_iff in H1 as [_ H1]. apply orb_false_iff in H2 as [_ H2].
    by destruct (IH s2 r1 r2 H1 H2 Heq) as [-> ->].
Qed.

(** Where the separator cannot be confused: when no customer ID and no
    corpus ID contains "-", the joined string determines the triple. *)
Lemma searchId_key_inj_dash_free p1 p2 :
  has_dash (customerId p1) = false → has_dash (corpusId p1) = false →
  has_dash (customerId p2) = false → has_dash (corpusId p2) = false →
  searchId_key p1 = searchId_key p2 →
  customerId p1 = customerId p2 ∧ corpusId p1 = corpusId p2 ∧ apiKey p1 = apiKey p2.
Proof.
  intros Hc1 Hk1 Hc2 Hk2 Heq. unfold searchId_key in Heq.
  apply append_dash_inj in Heq as [Hc Heq]; [|done..].
  apply append_dash_inj in Heq as [Hk Ha]; done.
Qed.

(** C10. When the [historySize] prop is left out, the capacity handed to
    the history store is 10: a submitted query is recorded by
    [addPreviousSearch] with capacity 10. *)
Theorem historySize_default_is_10 props query w :
  historySize props = None → query ≠ "" →
  Search_historySize props = 10%nat ∧
  history (run_handler (sendSearchQuery getUuid props query) w) =
    addPreviousSearch (searchId getUuid props) 10 query (history w).
Proof.
  intros Hnone Hq. unfold Search_historySize, run_handler.
  rewrite sendSearchQuery_nonempty by done. cbn.
  unfold Search_historySize. by rewrite Hnone.
Qed.

End History.

(** C10 at work: [example_props] leaves [historySize] out, and "docs" is
    recorded with capacity 10. *)
Lemma historySize_default_is_10_witness :
  historySize example_props = None ∧
  "docs" ≠ "" ∧
  Search_historySize example_props = 10%nat ∧
  history (run_handler (sendSearchQuery id example_props "docs") (init ∅)) =
    addPreviousSearch (searchId id example_props) 10 "docs" ∅.
Proof.
  split; [reflexivity|]. split; [discriminate|].
  apply (historySize_default_is_10 id example_props "docs" (init ∅)).
  - reflexivity.
  - discriminate.
Defined.

(** ** One step of the event loop, event by event *)

Section Steps.

Variable getUuid : string → string.
Variable props : Props.

Lemma reachable_valid_selection w :
  reachable getUuid props w → valid_selection w.
Proof.
  induction 1 as [store|ev w Hreach IH]; [done|].
  by apply step_valid_selection.
Qed.


(** A submission, as every caller runs it. *)
Lemma submit_eq query w :
  run_handler (sendSearchQuery getUuid props query) w =
    if decide (query = "") then w
    else mkWorld (searchResults w) (selectedResultIndex w) (isOpen w) (queryRef w)
           (searchCount w + 1)
           (addPreviousSearch (searchId getUuid props) (Search_historySize props)
              query (history w))
           (timers w)
           (inflight w ++ [(searchCount w + 1, query)])
           (trace w ++ [Fetch query]).
Proof.
  unfold run_handler. destruct (decide (query = "")) as [->|Hq]; [done|].
  by rewrite sendSearchQuery_nonempty.
Qed.

Lemma step_Change value w :
  step getUuid props (Change value) w =
    if (String.length value =? 0)%nat
    then mkWorld [] None (isOpen w) value (searchCount w) (history w)
           (timers w ++ [value]) (inflight w) (trace w)
    else mkWorld (searchResults w) (selectedResultIndex w) (isOpen w) value
           (searchCount w) (history w) (timers w ++ [value]) (inflight w) (trace w).
Proof. unfold_handlers. cbn. by destruct (String.length value =? 0)%nat. Qed.

Lemma step_FetchSettles_eq n r w :
  step getUuid props (FetchSettles n r) w =
    match inflight w !! n with
    | Some (id, _) =>
        match r with
        | Fulfilled results =>
            if id =? searchCount w
            then mkWorld results None (isOpen w) (queryRef w) (searchCount w)
                   (history w) (timers w) (delete n (inflight w)) (trace w)
            else setInflight' (delete n (inflight w)) w
        | Rejected e =>
            emit' (UnhandledRejection e) (setInflight' (delete n (inflight w)) w)
        end
    | None => w
    end.
Proof.
  cbn. destruct (inflight w !! n) as [[id q]|]; [|done].
  unfold_handlers. destruct r as [results|e]; cbn; [|done].
  by destruct (id =? searchCount w).
Qed.

End Steps.

(** Splits a goal about [step getUuid props ev w] into one goal for each
    way the event can run, with the resulting world written out. *)
Ltac step_cases getUuid props ev w :=
  let i := fresh "i" in
  let q := fresh "q" in
  let id := fresh "id" in
  destruct ev as [?value|?key|?n|?n ?r| |];
  [ rewrite (step_Change getUuid props);
    destruct (String.length value =? 0)%nat eqn:?
  | destruct (decide (key = "Enter")) as [->|?];
    [ rewrite (onKeyDown_Enter getUuid props);
      destruct (selectedResultIndex w) as [i|] eqn:?;
      [ destruct (array_get (searchResults w) i) eqn:?
      | rewrite (submit_eq getUuid props);
        destruct (decide (queryRef w = "")) ]
    | destruct (decide (key = "ArrowDown")) as [->|?];
      [ rewrite (onKeyDown_ArrowDown getUuid props);
        destruct (array_length (searchResults w) =? 0) eqn:?
      | destruct (decide (key = "ArrowUp")) as [->|?];
        [ rewrite (onKeyDown_ArrowUp getUuid props);
          destruct (array_length (searchResults w) =? 0) eqn:?
        | rewrite (onKeyDown_other getUuid props) by done ] ] ]
  | change (step getUuid props (TimerFires n) w)
      with (match timers w !! n with
            | Some query =>
                run_handler (sendSearchQuery getUuid props query)
                  (setTimers' (delete n (timers w)) w)
            | None => w
            end);
    destruct (timers w !! n) as [q|] eqn:?;
    [ rewrite (submit_eq getUuid props); destruct (decide (q = "")) | ]
  | rewrite (step_FetchSettles_eq getUuid props);
    destruct (inflight w !! n) as [[id q]|] eqn:?;
    [ destruct r as [?results|?e];
      [ destruct (id =? searchCount w) eqn:? | ]
    | ]
  | change (step getUuid props Close w)
      with (setSelectedResultIndex' None (setSearchResults' [] (setIsOpen' false w)))
  | change (step getUuid props Open w) with (setIsOpen' true w) ];
  cbn.

(** Splits a membership in a trace written with [++] and [::] into its
    cases, and drops the impossible ones. *)
Ltac trace_mem H :=
  rewrite ?elem_of_app, ?elem_of_cons, ?elem_of_nil in H;
  destruct_or?; try done; try discriminate.

Section Effects.

Variable getUuid : string → string.
Variable props : Props.




(** X3. The only way the component navigates: a step adds a [window.open]
    to the trace only when it is Enter on a selection that indexes a
    result, and the target is that result's URL. *)
Theorem navigation_only_on_enter ev w target :
  WindowOpen target ∈ trace (step getUuid props ev w) →
  WindowOpen target ∈ trace w ∨
  (ev = KeyDown "Enter" ∧
   ∃ i r, selectedResultIndex w = Some i ∧
          array_get (searchResults w) i = Some r ∧
          url r = target).
Proof.
  step_cases getUuid props ev w; intros Hin; trace_mem Hin; try (by left).
  right. match goal with H : WindowOpen _ = WindowOpen _ |- _ => injection H as -> end.
  split; [done|]. eauto.
Qed.

End Effects.

(** ** Sequence numbers and requests *)

Section Bookkeeping.

Variable getUuid : string → string.
Variable props : Props.

Lemma run_snoc evs ev w :
  run getUuid props (evs ++ [ev]) w = step getUuid props ev (run getUuid props evs w).
Proof. unfold run. by rewrite foldl_app. Qed.

Lemma fetches_app t1 t2 : fetches (t1 ++ t2) = fetches t1 ++ fetches t2.
Proof. unfold fetches. apply omap_app. Qed.

Lemma StronglySorted_delete (l : list Z) n :
  StronglySorted Z.lt l → StronglySorted Z.lt (delete n l).
Proof.
  intros Hs. rewrite delete_take_drop.
  assert (Hd : drop (S n) l = drop 1 (drop n l))
    by (rewrite drop_drop; f_equal; lia).
  rewrite Hd. rewrite <- (take_drop n l) in Hs.
  apply StronglySorted_app in Hs as (Hlt & Hl & Hr).
  destruct (drop n l) as [|y k]; cbn.
  - by rewrite app_nil_r.
  - apply StronglySorted_app_2; [|done|].
    + intros x1 x2 H1 H2. apply Hlt; [done|by right].
    + by apply StronglySorted_cons in Hr as [_ Hr].
Qed.

Lemma bookkeeping_frame w w' :
  fetches (trace w') = fetches (trace w) →
  searchCount w' = searchCount w →
  inflight w' = inflight w →
  bookkeeping w → bookkeeping w'.
Proof. unfold bookkeeping. by intros -> -> ->. Qed.

Lemma bookkeeping_delete n w w' :
  fetches (trace w') = fetches (trace w) →
  searchCount w' = searchCount w →
  inflight w' = delete n (inflight w) →
  bookkeeping w → bookkeeping w'.
Proof.
  unfold bookkeeping. intros -> -> -> (Hc & Hs & Hin). split_and!; [done| |].
  - rewrite list_fmap_delete. by apply StronglySorted_delete.
  - intros id q Hq%list_elem_of_delete_inv. by apply Hin.
Qed.

Lemma bookkeeping_submit q w w' :
  q ≠ "" →
  fetches (trace w') = fetches (trace w) ++ [q] →
  searchCount w' = searchCount w + 1 →
  inflight w' = inflight w ++ [(searchCount w + 1, q)] →
  bookkeeping w → bookkeeping w'.
Proof.
  unfold bookkeeping. intros Hq -> -> -> (Hc & Hs & Hin). split_and!.
  - rewrite length_app. cbn. lia.
  - rewrite fmap_app. apply StronglySorted_app_2; [|done|].
    + intros x1 x2 H1 H2. apply list_elem_of_singleton in H2 as ->.
      apply list_elem_of_fmap in H1 as ([id q'] & -> & Hq').
      destruct (Hin _ _ Hq') as (? & _). cbn. lia.
    + repeat constructor.
  - intros id q' [Hold|Hnew]%elem_of_app.
    + destruct (Hin _ _ Hold) as (Hid & Hne & Hl). split; [lia|split; [done|]].
      rewrite lookup_app_l; [done|]. by eapply lookup_lt_Some.
    + apply list_elem_of_singleton in Hnew. injection Hnew as -> ->.
      split; [lia|split; [done|]].
      replace (Z.to_nat (searchCount w + 1 - 1)) with (length (fetches (trace w)))
        by lia.
      by rewrite list_lookup_middle.
Qed.

Lemma step_bookkeeping ev w :
  bookkeeping w → bookkeeping (step getUuid props ev w).
Proof.
  step_cases getUuid props ev w; try done;
    first
      [ apply bookkeeping_frame; cbn; rewrite ?fetches_app; cbn;
        rewrite ?app_nil_r; done
      | eapply bookkeeping_delete; cbn; rewrite ?fetches_app; cbn;
        rewrite ?app_nil_r; done
      | eapply (bookkeeping_submit _ w); cbn; rewrite ?fetches_app; cbn;
        rewrite ?app_nil_r; done ].
Qed.

Lemma reachable_bookkeeping w :
  reachable getUuid props w → bookkeeping w.
Proof.
  induction 1 as [store|ev w Hreach IH]; [|by apply step_bookkeeping].
  split_and!; [done|constructor|]. intros id q Hin. by apply elem_of_nil in Hin.
Qed.

(** X4. In every reachable state the sequence counter is the number of
    requests issued so far, and the request in flight with sequence number
    [id] is the [id]-th request that left, for the very query it waits
    for. *)
Theorem sequence_numbers_count_requests w :
  reachable getUuid props w →
  Z.of_nat (length (fetches (trace w))) = searchCount w ∧
  ∀ id q, (id, q) ∈ inflight w →
          fetches (trace w) !! Z.to_nat (id - 1) = Some q.
Proof.
  intros (Hc & _ & Hin)%reachable_bookkeeping. split; [done|].
  intros id q Hq. by destruct (Hin id q Hq) as (_ & _ & ?).
Qed.

(** X5. In every reachable state the requests in flight are listed with
    strictly increasing sequence numbers between 1 and the counter, none of
    them for the empty query; so only the last of them can carry the
    current sequence number, and at most one response in flight can still
    be applied. *)
Theorem inflight_sequence_numbers w :
  reachable getUuid props w →
  StronglySorted Z.lt ((inflight w).*1) ∧
  (∀ id q, (id, q) ∈ inflight w → 0 < id ≤ searchCount w ∧ q ≠ "") ∧
  (∀ l1 l2 q, inflight w = l1 ++ (searchCount w, q) :: l2 → l2 = []).
Proof.
  intros (_ & Hs & Hin)%reachable_bookkeeping. split_and!; [done| |].
  - intros id q Hq. destruct (Hin id q Hq) as (? & ? & _). done.
  - intros l1 l2 q Heq. rewrite Heq in Hs, Hin.
    rewrite fmap_app, fmap_cons in Hs.
    apply StronglySorted_app_1_r, StronglySorted_cons in Hs as [Hlt _].
    destruct l2 as [|[id' q'] l2]; [done|]. exfalso.
    apply Forall_cons in Hlt as [Hlt _]. cbn in Hlt.
    destruct (Hin id' q') as (? & _); [|lia].
    apply elem_of_app. right. right. by left.
Qed.

Lemma queries_from_mono (P Q : string → Prop) w :
  (∀ q, P q → Q q) → queries_from P w → queries_from Q w.
Proof.
  unfold queries_from. intros HPQ (Href & Htim & Htr). split_and!.
  - destruct Href; [by left|right; by apply HPQ].
  - intros q Hq. by apply HPQ, Htim.
  - intros q Hq. destruct (Htr q Hq). split; [done|by apply HPQ].
Qed.

(** Only typing changes the stored query text. *)
Lemma step_queryRef ev w :
  queryRef (step getUuid props ev w) = queryRef w ∨
  ev = Change (queryRef (step getUuid props ev w)).
Proof. step_cases getUuid props ev w; try (by left); by right. Qed.

(** Only typing schedules a debounced call. *)
Lemma step_timers ev w q :
  q ∈ timers (step getUuid props ev w) → q ∈ timers w ∨ ev = Change q.
Proof.
  step_cases getUuid props ev w; intros Hq; try (by left);
    try (left; by eapply list_elem_of_delete_inv);
    trace_mem Hq; try (by left); right; by subst.
Qed.

(** A request leaves only for a non-empty text, which is the stored query
    text (Enter) or that of a scheduled debounced call. *)
Lemma step_fetch ev w q :
  Fetch q ∈ trace (step getUuid props ev w) →
  Fetch q ∈ trace w ∨ (q ≠ "" ∧ (q = queryRef w ∨ q ∈ timers w)).
Proof.
  step_cases getUuid props ev w; intros Hq; trace_mem Hq; try (by left);
    right; match goal with H : Fetch _ = Fetch _ |- _ => injection H as -> end.
  - split; [done|by left].
  - split; [done|]. right. by eapply list_elem_of_lookup_2.
Qed.

Lemma step_queries_from (P : string → Prop) ev w :
  (∀ value, ev = Change value → P value) →
  queries_from P w → queries_from P (step getUuid props ev w).
Proof.
  unfold queries_from. intros HP (Href & Htim & Htr). split_and!.
  - destruct (step_queryRef ev w) as [->|Hev]; [done|]. right. by apply HP.
  - intros q [Hq|Hq]%step_timers; [by apply Htim|by apply HP].
  - intros q [Hq|(Hne & [->|Hq])]%step_fetch; [by apply Htr| |].
    + split; [done|]. by destruct Href.
    + split; [done|]. by apply Htim.
Qed.

(** X6. Every request the component issues is for a non-empty text that
    was typed into the input before: if a run from a fresh component has
    fetched [q], then [q] is not empty and an [onChange] with value [q] is
    among the events. *)
Theorem requests_only_typed evs store q :
  Fetch q ∈ trace (run getUuid props evs (init store)) →
  q ≠ "" ∧ Change q ∈ evs.
Proof.
  assert (Hinv : queries_from (λ q', Change q' ∈ evs)
                   (run getUuid props evs (init store))).
  { induction evs as [|ev evs IH] using rev_ind.
    - split_and!; [by left| |]; intros q' Hq'; by apply elem_of_nil in Hq'.
    - rewrite run_snoc. apply step_queries_from.
      + intros value ->. apply elem_of_app. right. by left.
      + revert IH. apply queries_from_mono. intros q' Hq'.
        apply elem_of_app. by left. }
  intros Hin. by apply Hinv.
Qed.

End Bookkeeping.

(** X4 at work: two queries typed and sent, both still in flight. *)
Lemma sequence_numbers_count_requests_witness :
  let w := run id example_props
             [Change "a"; TimerFires 0; Change "ab"; KeyDown "Enter"] (init ∅) in
  reachable id example_props w ∧
  fetches (trace w) = ["a"; "ab"] ∧
  Z.of_nat (length (fetches (trace w))) = searchCount w.
Proof.
  cbn zeta.
  assert (Hreach : reachable id example_props
            (run id example_props
               [Change "a"; TimerFires 0; Change "ab"; KeyDown "Enter"] (init ∅))).
  { apply reachable_run. constructor. }
  split_and!.
  - exact Hreach.
  - reflexivity.
  - exact (proj1 (sequence_numbers_count_requests id example_props _ Hreach)).
Defined.

(** X5 at work, on the same state. *)
Lemma inflight_sequence_numbers_witness :
  let w := run id example_props
             [Change "a"; TimerFires 0; Change "ab"; KeyDown "Enter"] (init ∅) in
  reachable id example_props w ∧
  inflight w = [(1, "a"); (2, "ab")] ∧
  StronglySorted Z.lt ((inflight w).*1).
Proof.
  cbn zeta.
  assert (Hreach : reachable id example_props
            (run id example_props
               [Change "a"; TimerFires 0; Change "ab"; KeyDown "Enter"] (init ∅))).
  { apply reachable_run. constructor. }
  split_and!.
  - exact Hreach.
  - reflexivity.
  - exact (proj1 (inflight_sequence_numbers id example_props _ Hreach)).
Defined.

(** X6 at work: "docs" is typed and submitted with Enter. *)
Lemma requests_only_typed_witness :
  Fetch "docs" ∈ trace (run id example_props [Change "docs"; KeyDown "Enter"] (init ∅)) ∧
  "docs" ≠ "" ∧
  Change "docs" ∈ [Change "docs"; KeyDown "Enter"].
Proof.
  assert (Hin : Fetch "docs" ∈
            trace (run id example_props [Change "docs"; KeyDown "Enter"] (init ∅))).
  { change (Fetch "docs" ∈ [PreventDefault; Fetch "docs"]).
    apply elem_of_cons. right. apply elem_of_cons. by left. }
  split; [exact Hin|].
  exact (requests_only_typed id example_props _ ∅ "docs" Hin).
Defined.

(** ** Moving the selection *)

Section Arrows.

Variable getUuid : string → string.
Variable props : Props.

Lemma setSelectedResultIndex'_same w i :
  selectedResultIndex w = Some i → setSelectedResultIndex' (Some i) w = w.
Proof. destruct w. cbn. by intros ->. Qed.

Lemma arrowDown_mod w i :
  0 ≤ i < array_length (searchResults w) →
  selectedResultIndex w = Some i →
  step getUuid props (KeyDown "ArrowDown") w =
    setSelectedResultIndex' (Some ((i + 1) mod array_length (searchResults w))) w.
Proof.
  intros Hi Hs. rewrite onKeyDown_ArrowDown, Hs.
  destruct (array_length (searchResults w) =? 0) eqn:E; [lia|].
  unfold arrowDown_next. do 2 f_equal.
  destruct (i =? array_length (searchResults w) - 1) eqn:E1.
  - replace (i + 1) with (array_length (searchResults w)) by lia.
    by rewrite Z_mod_same_full.
  - rewrite Z.mod_small; [done|lia].
Qed.

Lemma arrowUp_mod w i :
  0 ≤ i < array_length (searchResults w) →
  selectedResultIndex w = Some i →
  step getUuid props (KeyDown "ArrowUp") w =
    setSelectedResultIndex' (Some ((i - 1) mod array_length (searchResults w))) w.
Proof.
  intros Hi Hs. rewrite onKeyDown_ArrowUp, Hs.
  destruct (array_length (searchResults w) =? 0) eqn:E; [lia|].
  unfold arrowUp_next. do 2 f_equal.
  destruct (i =? 0) eqn:E1.
  - replace (i - 1) with (array_length (searchResults w) - 1
                          + (-1) * array_length (searchResults w)) by lia.
    rewrite Z_mod_plus_full, Z.mod_small; [done|lia].
  - rewrite Z.mod_small; [done|lia].
Qed.

(** X7. On a selected row of a non-empty list ArrowUp undoes ArrowDown and
    ArrowDown undoes ArrowUp: the component is back in the state it was
    in. *)
Theorem arrow_keys_inverse w i :
  selectedResultIndex w = Some i →
  0 ≤ i < array_length (searchResults w) →
  step getUuid props (KeyDown "ArrowUp") (step getUuid props (KeyDown "ArrowDown") w) = w ∧
  step getUuid props (KeyDown "ArrowDown") (step getUuid props (KeyDown "ArrowUp") w) = w.
Proof.
  intros Hs Hi. set (N := array_length (searchResults w)).
  assert (HN : 0 < N) by (subst N; lia).
  split.
  - rewrite (arrowDown_mod w i) by done. fold N.
    rewrite (arrowUp_mod _ ((i + 1) mod N)); cbn; fold N;
      [|by apply Z.mod_pos_bound|done].
    rewrite Zminus_mod_idemp_l. replace (i + 1 - 1) with i by lia.
    rewrite Z.mod_small by lia.
    rewrite <- (setSelectedResultIndex'_same w i Hs) at 2. done.
  - rewrite (arrowUp_mod w i) by done. fold N.
    rewrite (arrowDown_mod _ ((i - 1) mod N)); cbn; fold N;
      [|by apply Z.mod_pos_bound|done].
    rewrite Zplus_mod_idemp_l. replace (i - 1 + 1) with i by lia.
    rewrite Z.mod_small by lia.
    rewrite <- (setSelectedResultIndex'_same w i Hs) at 2. done.
Qed.

(** X8. The arrow keys walk the list cyclically: from the row at index i of
    N rows, k presses of ArrowDown select the row at (i + k) mod N and k
    presses of ArrowUp the row at (i - k) mod N, and nothing else changes;
    N presses of either key come back to row i. *)
Theorem arrow_keys_iterate k : ∀ w i,
  selectedResultIndex w = Some i →
  0 ≤ i < array_length (searchResults w) →
  let N := array_length (searchResults w) in
  run getUuid props (replicate k (KeyDown "ArrowDown")) w =
    setSelectedResultIndex' (Some ((i + Z.of_nat k) mod N)) w ∧
  run getUuid props (replicate k (KeyDown "ArrowUp")) w =
    setSelectedResultIndex' (Some ((i - Z.of_nat k) mod N)) w ∧
  run getUuid props (replicate (Z.to_nat N) (KeyDown "ArrowDown")) w = w ∧
  run getUuid props (replicate (Z.to_nat N) (KeyDown "ArrowUp")) w = w.
Proof.
  assert (Hiter : ∀ k' w i,
    selectedResultIndex w = Some i →
    0 ≤ i < array_length (searchResults w) →
    run getUuid props (replicate k' (KeyDown "ArrowDown")) w =
      setSelectedResultIndex'
        (Some ((i + Z.of_nat k') mod array_length (searchResults w))) w ∧
    run getUuid props (replicate k' (KeyDown "ArrowUp")) w =
      setSelectedResultIndex'
        (Some ((i - Z.of_nat k') mod array_length (searchResults w))) w).
  { induction k' as [|k' IH]; intros w i Hs Hi.
    - cbn. rewrite Z.add_0_r, Z.sub_0_r, Z.mod_small by lia.
      by rewrite setSelectedResultIndex'_same.
    - set (N := array_length (searchResults w)).
      assert (HN : 0 < N) by (subst N; lia).
      rewrite !replicate_S.
      change (run getUuid props (?ev :: ?evs) w)
        with (run getUuid props evs (step getUuid props ev w)).
      split.
      + change (run getUuid props (KeyDown "ArrowDown" :: replicate k' (KeyDown "ArrowDown")) w)
          with (run getUuid props (replicate k' (KeyDown "ArrowDown"))
                  (step getUuid props (KeyDown "ArrowDown") w)).
        rewrite (arrowDown_mod w i) by done. fold N.
        destruct (IH (setSelectedResultIndex' (Some ((i + 1) mod N)) w)
                    ((i + 1) mod N)) as [-> _]; cbn; fold N;
          [done|by apply Z.mod_pos_bound|].
        unfold setSelectedResultIndex'. cbn. do 2 f_equal.
        rewrite Zplus_mod_idemp_l. f_equal. lia.
      + change (run getUuid props (KeyDown "ArrowUp" :: replicate k' (KeyDown "ArrowUp")) w)
          with (run getUuid props (replicate k' (KeyDown "ArrowUp"))
                  (step getUuid props (KeyDown "ArrowUp") w)).
        rewrite (arrowUp_mod w i) by done. fold N.
        destruct (IH (setSelectedResultIndex' (Some ((i - 1) mod N)) w)
                    ((i - 1) mod N)) as [_ ->]; cbn; fold N;
          [done|by apply Z.mod_pos_bound|].
        unfold setSelectedResultIndex'. cbn. do 2 f_equal.
        rewrite Zminus_mod_idemp_l. f_equal. lia. }
  intros w i Hs Hi N.
  destruct (Hiter k w i Hs Hi) as [Hd Hu].
  destruct (Hiter (Z.to_nat N) w i Hs Hi) as [HdN HuN]. fold N in HdN, HuN.
  assert (HN : 0 < N) by (subst N; lia).
  split_and!; [done|done| |].
  - rewrite HdN, Z2Nat.id by lia.
    replace (i + N) with (i + 1 * N) by lia.
    rewrite Z_mod_plus_full, Z.mod_small by lia.
    by apply setSelectedResultIndex'_same.
  - rewrite HuN, Z2Nat.id by lia.
    replace (i - N) with (i + (-1) * N) by lia.
    rewrite Z_mod_plus_full, Z.mod_small by lia.
    by apply setSelectedResultIndex'_same.
Qed.

End Arrows.

(** X7 at work: three results, the middle one selected. *)
Lemma arrow_keys_inverse_witness :
  let w := setSelectedResultIndex' (Some 1)
             (setSearchResults' [result_a; result_b; result_a] (init ∅)) in
  selectedResultIndex w = Some 1 ∧
  0 ≤ 1 < array_length (searchResults w) ∧
  step id example_props (KeyDown "ArrowUp")
    (step id example_props (KeyDown "ArrowDown") w) = w.
Proof.
  cbn zeta.
  assert (Hi : 0 ≤ 1 < array_length [result_a; result_b; result_a])
    by (unfold array_length; cbn; lia).
  split; [|split].
  - reflexivity.
  - exact Hi.
  - exact (proj1 (arrow_keys_inverse id example_props
             (setSelectedResultIndex' (Some 1)
                (setSearchResults' [result_a; result_b; result_a] (init ∅)))
             1 eq_refl Hi)).
Defined.

(** X8 at work: from the middle of three rows, five presses of ArrowDown
    end on the first row. *)
Lemma arrow_keys_iterate_witness :
  let w := setSelectedResultIndex' (Some 1)
             (setSearchResults' [result_a; result_b; result_a] (init ∅)) in
  selectedResultIndex w = Some 1 ∧
  0 ≤ 1 < array_length (searchResults w) ∧
  run id example_props (replicate 5 (KeyDown "ArrowDown")) w =
    setSelectedResultIndex' (Some 0) w.
Proof.
  cbn zeta.
  assert (Hi : 0 ≤ 1 < array_length [result_a; result_b; result_a])
    by (unfold array_length; cbn; lia).
  split; [|split].
  - reflexivity.
  - exact Hi.
  - exact (proj1 (arrow_keys_iterate id example_props 5
             (setSelectedResultIndex' (Some 1)
                (setSearchResults' [result_a; result_b; result_a] (init ∅)))
             1 eq_refl Hi)).
Defined.

(** ** What closing, clearing and other events leave in place *)

Section Persistence.

Variable getUuid : string → string.
Variable props : Props.

(** X9. Neither closing the modal nor clearing the input cancels the
    request in flight: when the request with the current sequence number
    is answered after [closeModalAndResetResults] or after an [onChange]
    with the empty string, its results are still applied, to a closed
    modal or under an empty query text. *)
Theorem close_and_clear_keep_request w l1 l2 q results :
  inflight w = l1 ++ (searchCount w, q) :: l2 →
  (let w' := run getUuid props
               [Close; FetchSettles (length l1) (Fulfilled results)] w in
   searchResults w' = results ∧ selectedResultIndex w' = None ∧ isOpen w' = false) ∧
  (let w' := run getUuid props
               [Change ""; FetchSettles (length l1) (Fulfilled results)] w in
   searchResults w' = results ∧ selectedResultIndex w' = None ∧ queryRef w' = "").
Proof.
  intros Hin. split; cbn zeta.
  - change (run getUuid props [Close; FetchSettles (length l1) (Fulfilled results)] w)
      with (step getUuid props (FetchSettles (length l1) (Fulfilled results))
              (step getUuid props Close w)).
    rewrite (step_FetchSettles getUuid props l1 l2 (searchCount w) q) by done.
    by rewrite fresh_resume_applied.
  - change (run getUuid props [Change ""; FetchSettles (length l1) (Fulfilled results)] w)
      with (step getUuid props (FetchSettles (length l1) (Fulfilled results))
              (step getUuid props (Change "") w)).
    rewrite (step_FetchSettles getUuid props l1 l2 (searchCount w) q) by done.
    by rewrite fresh_resume_applied.
Qed.

Lemma run_queryRef evs : ∀ w,
  (∀ value, Change value ∉ evs) →
  queryRef (run getUuid props evs w) = queryRef w.
Proof.
  induction evs as [|ev evs IH]; intros w Hno; [done|].
  change (run getUuid props (ev :: evs) w)
    with (run getUuid props evs (step getUuid props ev w)).
  rewrite IH.
  - destruct (step_queryRef getUuid props ev w) as [Heq|Hev]; [done|].
    exfalso. apply (Hno (queryRef (step getUuid props ev w))).
    rewrite <- Hev. by left.
  - intros value Hin. eapply Hno. by right.
Qed.

(** X10. The stored query text is the last text typed, whatever happened
    since: after an [onChange] with [value], no sequence of events without
    another [onChange] (keys, debounced calls firing, responses, closing
    and reopening) changes it; so an Enter with no selection at the end
    requests exactly [value] when it is not empty. *)
Theorem query_text_is_last_typed evs value w :
  (∀ value', Change value' ∉ evs) →
  let w' := run getUuid props evs (step getUuid props (Change value) w) in
  queryRef w' = value ∧
  (selectedResultIndex w' = None → value ≠ "" →
   trace (step getUuid props (KeyDown "Enter") w') =
     trace w' ++ [PreventDefault; Fetch value]).
Proof.
  intros Hno. cbn zeta.
  assert (Hq : queryRef (run getUuid props evs (step getUuid props (Change value) w))
               = value).
  { rewrite run_queryRef by done. rewrite step_Change.
    by destruct (String.length value =? 0)%nat. }
  split; [done|]. intros Hs Hne.
  rewrite onKeyDown_Enter, Hs, submit_eq, Hq.
  destruct (decide (value = "")); [done|]. cbn.
  by rewrite <- (assoc_L (++)).
Qed.

End Persistence.

(** X9 at work: "docs" is in flight when the modal is closed. *)
Lemma close_and_clear_keep_request_witness :
  let w := run id example_props [Change "docs"; KeyDown "Enter"] (init ∅) in
  inflight w = [] ++ (searchCount w, "docs") :: [] ∧
  searchResults
    (run id example_props [Close; FetchSettles 0 (Fulfilled [result_a])] w)
    = [result_a] ∧
  isOpen (run id example_props [Close; FetchSettles 0 (Fulfilled [result_a])] w)
    = false.
Proof.
  cbn zeta.
  assert (Hin : inflight (run id example_props [Change "docs"; KeyDown "Enter"] (init ∅))
                = [] ++ (searchCount
                           (run id example_props [Change "docs"; KeyDown "Enter"] (init ∅)),
                         "docs") :: []) by reflexivity.
  destruct (close_and_clear_keep_request id example_props
              (run id example_props [Change "docs"; KeyDown "Enter"] (init ∅))
              [] [] "docs" [result_a] Hin) as [(Hr & _ & Ho) _].
  split_and!.
  - exact Hin.
  - exact Hr.
  - exact Ho.
Defined.

(** X10 at work: "docs" is typed, then the modal is closed and reopened. *)
Lemma query_text_is_last_typed_witness :
  (∀ value', Change value' ∉ [Close; Open]) ∧
  queryRef (run id example_props [Close; Open]
              (step id example_props (Change "docs") (init ∅))) = "docs".
Proof.
  assert (Hno : ∀ value', Change value' ∉ [Close; Open]).
  { intros value' Hin. apply elem_of_cons in Hin as [Hin|Hin]; [discriminate|].
    apply elem_of_cons in Hin as [Hin|Hin]; [discriminate|].
    by apply elem_of_nil in Hin. }
  split; [exact Hno|].
  exact (proj1 (query_text_is_last_typed id example_props [Close; Open] "docs"
                  (init ∅) Hno)).
Defined.

(** ** The rendered list and the global shortcut *)

Section Rendering.

Variable getUuid : string → string.
Variable props : Props.

Lemma is_index_true selected j :
  is_index selected j = true ↔ selected = Some (Z.of_nat j).
Proof.
  destruct selected as [i|]; cbn; [|done].
  rewrite Z.eqb_eq. split; [by intros ->|by intros [= ->]].
Qed.

(** X11. What [resultsList] hands to the modal: nothing for an empty
    result array, and otherwise one row per result, in order, of which the
    row at index j is marked selected exactly when [selectedResultIndex] is
    j, and holds [selectedResultRef] exactly when it is marked.  In a
    reachable state a selection always has its row: exactly one row is
    highlighted, and it is the one the scroll effect finds in the ref. *)
Theorem resultsList_highlights_selection w :
  reachable getUuid props w →
  (resultsList w = None ↔ searchResults w = []) ∧
  (∀ rows, resultsList w = Some rows → length rows = length (searchResults w)) ∧
  (∀ rows j row,
     resultsList w = Some rows → rows !! j = Some row →
     searchResults w !! j = Some (row_searchResult row) ∧
     row_ref row = row_isSelected row ∧
     (row_isSelected row = true ↔ selectedResultIndex w = Some (Z.of_nat j))) ∧
  (∀ i, selectedResultIndex w = Some i →
        ∃ rows row, resultsList w = Some rows ∧
                    rows !! Z.to_nat i = Some row ∧
                    row_isSelected row = true ∧ row_ref row = true).
Proof.
  intros Hv%reachable_valid_selection. unfold resultsList. split_and!.
  - destruct (array_length (searchResults w) =? 0) eqn:E.
    + apply array_length_zero in E. done.
    + split; [done|]. intros Hnil. apply array_length_zero in Hnil. congruence.
  - intros rows Hrows.
    destruct (array_length (searchResults w) =? 0); [done|].
    injection Hrows as <-. apply length_imap.
  - intros rows j row Hrows Hj.
    destruct (array_length (searchResults w) =? 0); [done|].
    injection Hrows as <-. rewrite list_lookup_imap in Hj.
    destruct (searchResults w !! j) as [r|]; [|done].
    injection Hj as <-. cbn. split_and!; [done|done|apply is_index_true].
  - intros i Hi. unfold valid_selection in Hv. rewrite Hi in Hv.
    destruct (array_length (searchResults w) =? 0) eqn:E; [lia|].
    destruct (lookup_lt_is_Some_2 (searchResults w) (Z.to_nat i)) as [r Hr].
    { unfold array_length in Hv. lia. }
    eexists _, _. split; [done|]. rewrite list_lookup_imap, Hr. cbn.
    split; [done|]. rewrite Hi. cbn. rewrite Z2Nat.id by lia.
    by rewrite Z.eqb_refl.
Qed.

(** X12. The document's [keyup] listener opens the modal on a lower-case
    "k" with Ctrl held and does nothing on any other key stroke: it is the
    Open event of the event loop or no event at all, it never closes the
    modal, and it leaves the results, the selection and the query text as
    they are. *)
Theorem shortcut_opens_only w key ctrlKey :
  let w' := run_handler (openSearchOnKeyStroke key ctrlKey) w in
  (key = "k" ∧ ctrlKey = true → w' = step getUuid props Open w) ∧
  (key ≠ "k" ∨ ctrlKey = false → w' = w) ∧
  (reachable getUuid props w → reachable getUuid props w') ∧
  (isOpen w = true → isOpen w' = true) ∧
  searchResults w' = searchResults w ∧
  selectedResultIndex w' = selectedResultIndex w ∧
  queryRef w' = queryRef w.
Proof.
  cbn zeta. unfold openSearchOnKeyStroke.
  destruct (String.eqb key "k") eqn:Ek, ctrlKey; cbn.
  - apply String.eqb_eq in Ek as ->.
    split_and!; try done.
    + intros [[]|]; done.
    + intros Hreach. apply (reachable_step getUuid props Open w Hreach).
  - split_and!; try done. by intros [_ ?].
  - apply String.eqb_neq in Ek. split_and!; try done. by intros [? _].
  - apply String.eqb_neq in Ek. split_and!; try done. by intros [? _].
Qed.

End Rendering.

(** X11 at work: two results, ArrowUp pressed once: the second row is the
    highlighted one. *)
Lemma resultsList_highlights_selection_witness :
  let w := run id example_props
             [Change "a"; TimerFires 0; FetchSettles 0 (Fulfilled [result_a; result_b]);
              KeyDown "ArrowUp"] (init ∅) in
  reachable id example_props w ∧
  (row_isSelected <$> default [] (resultsList w)) = [false; true] ∧
  (resultsList w = None ↔ searchResults w = []).
Proof.
  cbn zeta.
  assert (Hreach : reachable id example_props
            (run id example_props
               [Change "a"; TimerFires 0; FetchSettles 0 (Fulfilled [result_a; result_b]);
                KeyDown "ArrowUp"] (init ∅))).
  { apply reachable_run. constructor. }
  split; [|split].
  - exact Hreach.
  - reflexivity.
  - exact (proj1 (resultsList_highlights_selection id example_props _ Hreach)).
Defined.

(** X12 at work: Ctrl+k on a fresh component, and Ctrl+K with the shift
    key. *)
Lemma shortcut_opens_only_witness :
  isOpen (run_handler (openSearchOnKeyStroke "k" true) (init ∅)) = true ∧
  run_handler (openSearchOnKeyStroke "K" true) (init ∅) = init ∅ ∧
  reachable id example_props (run_handler (openSearchOnKeyStroke "k" true) (init ∅)).
Proof.
  destruct (shortcut_opens_only id example_props (init ∅) "k" true)
    as (Hopen & _ & Hreach & _).
  destruct (shortcut_opens_only id example_props (init ∅) "K" true)
    as (_ & Hother & _).
  split_and!.
  - rewrite Hopen; [reflexivity|by split].
  - apply Hother. left. discriminate.
  - apply Hreach. constructor.
Defined.

(** ** Where results and history entries come from *)

Section Provenance.

Variable getUuid : string → string.
Variable props : Props.

Lemma step_searchResults ev w :
  searchResults (step getUuid props ev w) = searchResults w ∨
  searchResults (step getUuid props ev w) = [] ∨
  ∃ n results, ev = FetchSettles n (Fulfilled results) ∧
               searchResults (step getUuid props ev w) = results.
Proof.
  step_cases getUuid props ev w; try (by left); try (right; by left).
  right. right. eauto.
Qed.

(** X13. The results on screen are never made up: after any run from a
    fresh component the result array is empty or is the array some
    fulfilled response of that run delivered. *)
Theorem results_only_from_responses evs store :
  let w := run getUuid props evs (init store) in
  searchResults w = [] ∨
  ∃ n, FetchSettles n (Fulfilled (searchResults w)) ∈ evs.
Proof.
  cbn zeta. induction evs as [|ev evs IH] using rev_ind; [by left|].
  rewrite run_snoc.
  destruct (step_searchResults ev (run getUuid props evs (init store)))
    as [->|[->|(n & results & -> & ->)]].
  - destruct IH as [IH|[n IH]]; [by left|]. right. exists n.
    apply elem_of_app. by left.
  - by left.
  - right. exists n. apply elem_of_app. right. by left.
Qed.

Lemma step_history ev w :
  (history (step getUuid props ev w) = history w ∧
   fetches (trace (step getUuid props ev w)) = fetches (trace w)) ∨
  ∃ q, history (step getUuid props ev w) =
         addPreviousSearch (searchId getUuid props) (Search_historySize props) q
           (history w) ∧
       fetches (trace (step getUuid props ev w)) = fetches (trace w) ++ [q].
Proof.
  step_cases getUuid props ev w;
    first
      [ left; split; [done|]; rewrite ?fetches_app; cbn; by rewrite ?app_nil_r
      | right; eexists; split; [done|]; rewrite ?fetches_app; cbn;
        by rewrite ?app_nil_r ].
Qed.

(** X14. The component writes to no namespace of the history store but its
    own: after any run, what the store holds under any other identifier is
    what it held when the component was mounted. *)
Theorem history_other_namespaces_untouched evs store ns :
  ns ≠ searchId getUuid props →
  getPreviousSearches ns (history (run getUuid props evs (init store))) =
    getPreviousSearches ns store.
Proof.
  intros Hne. induction evs as [|ev evs IH] using rev_ind; [done|].
  rewrite run_snoc.
  destruct (step_history ev (run getUuid props evs (init store)))
    as [[-> _]|(q & -> & _)]; [done|].
  by rewrite getPreviousSearches_add_ne.
Qed.

(** X15. The history of the component follows its requests: when the store
    held at most [historySize] entries under the component's identifier at
    mount time, it holds, after any run, the last [historySize] entries of
    the old entries followed by the queries requested, in the order the
    requests left. *)
Theorem history_follows_requests evs store :
  let ns := searchId getUuid props in
  let cap := Search_historySize props in
  let w := run getUuid props evs (init store) in
  let all := getPreviousSearches ns store ++ fetches (trace w) in
  (length (getPreviousSearches ns store) ≤ cap)%nat →
  getPreviousSearches ns (history w) = drop (length all - cap) all ∧
  (length (getPreviousSearches ns (history w)) ≤ cap)%nat.
Proof.
  cbn zeta. intros Hcap.
  assert (Hinv :
    getPreviousSearches (searchId getUuid props)
      (history (run getUuid props evs (init store))) =
    drop (length (getPreviousSearches (searchId getUuid props) store ++
                  fetches (trace (run getUuid props evs (init store))))
          - Search_historySize props)
         (getPreviousSearches (searchId getUuid props) store ++
          fetches (trace (run getUuid props evs (init store))))).
  { induction evs as [|ev evs IH] using rev_ind.
    - cbn. rewrite app_nil_r.
      replace (length (getPreviousSearches (searchId getUuid props) store)
               - Search_historySize props)%nat with 0%nat by lia.
      done.
    - rewrite run_snoc.
      destruct (step_history ev (run getUuid props evs (init store)))
        as [[-> ->]|(q & -> & ->)]; [done|].
      rewrite getPreviousSearches_add, IH, (assoc_L (++)).
      apply drop_capped_snoc. }
  split; [done|]. rewrite Hinv, length_drop. lia.
Qed.

End Provenance.

(** X14 at work: a store that holds an entry of another widget. *)
Lemma history_other_namespaces_untouched_witness :
  "other" ≠ searchId id example_props ∧
  getPreviousSearches "other"
    (history (run id example_props [Change "docs"; KeyDown "Enter"]
                (init {["other" := ["theirs"]]}))) = ["theirs"].
Proof.
  assert (Hne : "other" ≠ searchId id example_props) by discriminate.
  split; [exact Hne|].
  rewrite (history_other_namespaces_untouched id example_props
             [Change "docs"; KeyDown "Enter"] {["other" := ["theirs"]]} "other" Hne).
  reflexivity.
Defined.

(** X15 at work: a fresh store, and two queries submitted. *)
Lemma history_follows_requests_witness :
  let w := run id example_props
             [Change "a"; TimerFires 0; Change "ab"; KeyDown "Enter"] (init ∅) in
  (length (getPreviousSearches (searchId id example_props) ∅)
   ≤ Search_historySize example_props)%nat ∧
  fetches (trace w) = ["a"; "ab"] ∧
  (length (getPreviousSearches (searchId id example_props) (history w))
   ≤ Search_historySize example_props)%nat.
Proof.
  cbn zeta.
  assert (Hcap : (length (getPreviousSearches (searchId id example_props) ∅)
                  ≤ Search_historySize example_props)%nat).
  { unfold getPreviousSearches. rewrite lookup_empty. cbn. lia. }
  split; [exact Hcap|]. split; [reflexivity|].
  exact (proj2 (history_follows_requests id example_props
                  [Change "a"; TimerFires 0; Change "ab"; KeyDown "Enter"] ∅ Hcap)).
Defined.

(** ** Namespaces of configurations without the separator *)

(** X16. When no customer ID and no corpus ID contains "-", two
    configurations whose (customerId, corpusId, apiKey) triples differ are
    hashed from different strings; so their identifiers differ whenever
    [getUuid] tells these two strings apart. *)
Theorem searchId_distinct_dash_free (getUuid : string → string) p1 p2 :
  has_dash (customerId p1) = false → has_dash (corpusId p1) = false →
  has_dash (customerId p2) = false → has_dash (corpusId p2) = false →
  (customerId p1, corpusId p1, apiKey p1) ≠ (customerId p2, corpusId p2, apiKey p2) →
  searchId_key p1 ≠ searchId_key p2 ∧
  ((getUuid (searchId_key p1) = getUuid (searchId_key p2) →
    searchId_key p1 = searchId_key p2) →
   searchId getUuid p1 ≠ searchId getUuid p2).
Proof.
  intros Hc1 Hk1 Hc2 Hk2 Hne.
  assert (Hkey : searchId_key p1 ≠ searchId_key p2).
  { intros Heq.
    destruct (searchId_key_inj_dash_free p1 p2 Hc1 Hk1 Hc2 Hk2 Heq) as (Hc & Hk & Ha).
    apply Hne. by rewrite Hc, Hk, Ha. }
  split; [done|]. intros Hinj Heq. by apply Hkey, Hinj.
Qed.

(** X16 at work: two corpora of one customer, and the identity for
    [getUuid]. *)
Lemma searchId_distinct_dash_free_witness :
  let p2 := mkProps "1234" "zqt_key" "8" None None in
  has_dash (customerId example_props) = false ∧
  has_dash (corpusId example_props) = false ∧
  has_dash (customerId p2) = false ∧
  has_dash (corpusId p2) = false ∧
  searchId_key example_props ≠ searchId_key p2 ∧
  searchId id example_props ≠ searchId id p2.
Proof.
  cbn zeta.
  assert (Hne : (customerId example_props, corpusId example_props, apiKey example_props)
                ≠ ("1234", "8", "zqt_key")) by discriminate.
  destruct (searchId_distinct_dash_free id example_props
              (mkProps "1234" "zqt_key" "8" None None)
              eq_refl eq_refl eq_refl eq_refl Hne) as [Hkey Hid].
  split; [reflexivity|]. split; [reflexivity|]. split; [reflexivity|].
  split; [reflexivity|]. split; [exact Hkey|].
  apply Hid. intros Heq. exact Heq.
Defined.

(** ** The handlers at work on one session *)




(** X3 at work: the navigation of that Enter key is to the selected row. *)
Lemma navigation_only_on_enter_witness :
  WindowOpen "/docs/a" ∈
    trace (step id example_props (KeyDown "Enter") session_selected) ∧
  (WindowOpen "/docs/a" ∈ trace session_selected ∨
   (KeyDown "Enter" = KeyDown "Enter" ∧
    ∃ i r, selectedResultIndex session_selected = Some i ∧
           array_get (searchResults session_selected) i = Some r ∧
           url r = "/docs/a")).
Proof.
  assert (Hin : WindowOpen "/docs/a" ∈
                  trace (step id example_props (KeyDown "Enter") session_selected)).
  { change (WindowOpen "/docs/a" ∈
              [PreventDefault; Fetch "docs"; PreventDefault; WindowOpen "/docs/a"]).
    rewrite !elem_of_cons. right. right. right. by left. }
  split; [exact Hin|].
  exact (navigation_only_on_enter id example_props (KeyDown "Enter")
           session_selected "/docs/a" Hin).
Defined.
